(** * The documentation generator: ignore filter, tree walker, annotator

    A shallow embedding of the three copies of the script
    ([src/index.js], [src/tests/Test.js] and the unnamed third copy) and
    the properties of its natural-language description.

    JavaScript strings are modelled as [string]; a character stands for
    one code unit, restricted to the range U+0000..U+00FF.  The file
    system is a finite map from path strings to inodes, as the [fs]
    module sees it.  Synchronous code runs in a small resumption monad
    [prog] whose primitives act on the world; callbacks registered with
    [fs.readdir] and [fs.stat] and continuations blocked on the backend
    are the pending tasks of an event loop. *)

From Stdlib Require Import Ascii String.
From stdpp Require Import base list strings gmap.


(** ** Strings *)

(** The line feed, U+000A: the [\n] of the source. *)
Definition LF : ascii := "010"%char.
Definition nl : string := String LF "".

(** [s.split(sep)] for a separator of one code unit.  The result is
    never empty: the empty string splits into one empty line. *)
Fixpoint split (sep : ascii) (s : string) : list string :=
  match s with
  | "" => [""]
  | String c rest =>
      if Ascii.eqb c sep then "" :: split sep rest
      else match split sep rest with
           | line :: lines => String c line :: lines
           | [] => [String c ""]
           end
  end.

(** [lines.join(sep)]. *)
Fixpoint join (sep : string) (lines : list string) : string :=
  match lines with
  | [] => ""
  | [line] => line
  | line :: rest => line +:+ sep +:+ join sep rest
  end.

(** [array.slice(start, end)], negative indices counting from the end. *)
Definition slice_index (len i : Z) : Z :=
  if (i <? 0)%Z then Z.max (len + i) 0 else Z.min i len.

Definition slice {A} (start end_ : Z) (l : list A) : list A :=
  let len := Z.of_nat (length l) in
  let k := slice_index len start in
  let final := slice_index len end_ in
  take (Z.to_nat (final - k)) (drop (Z.to_nat k) l).

(** [s.startsWith(p)], [s.endsWith(p)] and [s.includes(p)]. *)
Definition startsWith (s p : string) : bool := String.prefix p s.

Fixpoint endsWith (s p : string) : bool :=
  String.eqb s p ||
  match s with
  | "" => false
  | String _ rest => endsWith rest p
  end.

Fixpoint includes (s p : string) : bool :=
  String.prefix p s ||
  match s with
  | "" => false
  | String _ rest => includes rest p
  end.

(** White space and line terminators of ECMAScript below U+0100:
    TAB, LF, VT, FF, CR, SP and NBSP. *)
Definition is_white_space (c : ascii) : bool :=
  let n := nat_of_ascii c in
  (Nat.leb 9 n && Nat.leb n 13) || Nat.eqb n 32 || Nat.eqb n 160.

Fixpoint trimStart (s : string) : string :=
  match s with
  | "" => ""
  | String c rest => if is_white_space c then trimStart rest else s
  end.

Fixpoint trimEnd (s : string) : string :=
  match s with
  | "" => ""
  | String c rest =>
      let t := trimEnd rest in
      if is_white_space c && String.eqb t "" then "" else String c t
  end.

(** [s.trim()]. *)
Definition trim (s : string) : string := trimEnd (trimStart s).

(** A string is truthy when it is not empty. *)
Definition truthy (s : string) : bool := negb (String.eqb s "").

(** [s] consists of white space only. *)
Fixpoint all_white_space (s : string) : bool :=
  match s with
  | "" => true
  | String c rest => is_white_space c && all_white_space rest
  end.

(** ** The ignore filter *)

Definition IGNORE_CONFIG_FILE : string := ".ignoreconfig".

(** The pipeline of lines 14 to 17: split, trim every line, keep the
    truthy lines that are no comment. *)
Definition parse_ignore_config (text : string) : list string :=
  filter (λ line, truthy line && negb (startsWith line "#") = true)
         (map trim (split LF text)).

(** [shouldIgnore(filePath)]; the global pattern list is passed along. *)
Definition shouldIgnore (ignorePatterns : list string) (filePath : string) : bool :=
  existsb (λ pattern, includes filePath pattern) ignorePatterns.

(** The pattern list in the words of the description: the lines that
    trim to a non-empty text not starting with [#], each in its trimmed
    form. *)
Definition spec_patterns (text : string) : list string :=
  map trim
    (filter (λ line, trim line ≠ "" ∧ startsWith (trim line) "#" = false)
            (split LF text)).

(** [p] occurs in [s] as a substring. *)
Definition substring_of (p s : string) : Prop :=
  ∃ before after, s = before +:+ p +:+ after.

(** ** The world

    What the script can observe and change: the file system, the
    console, and the requests sent to the backend, each with the path of
    the file it is made for.  One more list records the calls of
    [addDocumentation], with the path and the entry name. *)

Inductive exn : Type :=
| ENOENT (path : string)
| EACCES (path : string)
| EISDIR (path : string)
| ENOTDIR (path : string)
| BackendError (message : string).

Inductive outcome (A : Type) : Type :=
| Returns (a : A)
| Throws (e : exn).
Arguments Returns {A} a.
Arguments Throws {A} e.

(** A directory with its listing ([None]: it cannot be listed), or
    anything that is no directory, with its content and permissions. *)
Inductive inode : Type :=
| Dir (listing : option (list string))
| File (content : string) (readable writable : bool).

Inductive console_entry : Type :=
| LogRunning
| ErrorReadingDirectory (dir : string) (err : exn)
| ErrorReadingFileStats (filePath : string) (err : exn)
| WarnTooShort
| LogDocumentationAdded (filePath : string)
| ErrorProcessing (filePath : string) (error : exn).

Record world : Type := World {
  fs : gmap string inode;
  console : list console_entry;
  requests : list (string * string);
  invoked : list (string * string)
}.

Definition set_fs (f : gmap string inode) (w : world) : world :=
  World f (console w) (requests w) (invoked w).
Definition add_console (e : console_entry) (w : world) : world :=
  World (fs w) (console w ++ [e]) (requests w) (invoked w).
Definition add_request (filePath prompt : string) (w : world) : world :=
  World (fs w) (console w) (requests w ++ [(filePath, prompt)]) (invoked w).
Definition add_invoked (filePath file : string) (w : world) : world :=
  World (fs w) (console w) (requests w) (invoked w ++ [(filePath, file)]).

(** *** Primitives of [fs] and [console] *)

Definition prim (X : Type) : Type := world → outcome X * world.

Definition existsSync_prim (path : string) : prim bool :=
  λ w, (Returns (bool_decide (is_Some (fs w !! path))), w).

Definition readFileSync_prim (path : string) : prim string :=
  λ w, match fs w !! path with
       | Some (File content true _) => (Returns content, w)
       | Some (File _ false _) => (Throws (EACCES path), w)
       | Some (Dir _) => (Throws (EISDIR path), w)
       | None => (Throws (ENOENT path), w)
       end.

(** Writing replaces the whole content; a missing file is created. *)
Definition writeFileSync_prim (path data : string) : prim unit :=
  λ w, match fs w !! path with
       | Some (File _ r true) =>
           (Returns tt, set_fs (<[path := File data r true]> (fs w)) w)
       | Some (File _ _ false) => (Throws (EACCES path), w)
       | Some (Dir _) => (Throws (EISDIR path), w)
       | None => (Returns tt, set_fs (<[path := File data true true]> (fs w)) w)
       end.

Definition console_prim (e : console_entry) : prim unit :=
  λ w, (Returns tt, add_console e w).

(** What [fs.readdir] hands to its callback. *)
Definition readdir_prim (dir : string) : prim (list string) :=
  λ w, match fs w !! dir with
       | Some (Dir (Some files)) => (Returns files, w)
       | Some (Dir None) => (Throws (EACCES dir), w)
       | Some (File _ _ _) => (Throws (ENOTDIR dir), w)
       | None => (Throws (ENOENT dir), w)
       end.

Record stats : Type := Stats { isDirectory : bool }.

(** What [fs.stat] hands to its callback. *)
Definition stat_prim (path : string) : prim stats :=
  λ w, match fs w !! path with
       | Some (Dir _) => (Returns (Stats true), w)
       | Some (File _ _ _) => (Returns (Stats false), w)
       | None => (Throws (ENOENT path), w)
       end.

(** ** Programs

    A program returns, throws, runs a primitive, registers a callback
    with [fs.readdir] or [fs.stat], or awaits the backend's answer to a
    prompt.  The continuation of a primitive and of an await receives
    the outcome, so that [try_catch] sees every failure. *)

Inductive callback : Type :=
| ReaddirCb (dir : string)
| StatCb (filePath file : string).

Inductive prog (A : Type) : Type :=
| Ret (a : A)
| Throw (e : exn)
| Do {X : Type} (m : prim X) (k : outcome X → prog A)
| Spawn (c : callback) (k : prog A)
| Await (prompt : string) (k : outcome string → prog A).
Arguments Ret {A} a.
Arguments Throw {A} e.
Arguments Do {A X} m k.
Arguments Spawn {A} c k.
Arguments Await {A} prompt k.

Fixpoint bind {A B} (p : prog A) (f : A → prog B) : prog B :=
  match p with
  | Ret a => f a
  | Throw e => Throw e
  | Do m k => Do m (λ o, bind (k o) f)
  | Spawn c k => Spawn c (bind k f)
  | Await prompt k => Await prompt (λ o, bind (k o) f)
  end.

(** [try { body } catch (e) { handler e }], also across an await. *)
Fixpoint try_catch {A} (body : prog A) (handler : exn → prog A) : prog A :=
  match body with
  | Ret a => Ret a
  | Throw e => handler e
  | Do m k => Do m (λ o, try_catch (k o) handler)
  | Spawn c k => Spawn c (try_catch k handler)
  | Await prompt k => Await prompt (λ o, try_catch (k o) handler)
  end.

Definition rethrow {A} (o : outcome A) : prog A :=
  match o with
  | Returns a => Ret a
  | Throws e => Throw e
  end.

Definition lift {X} (m : prim X) : prog X := Do m rethrow.

#[global] Instance prog_ret : MRet prog := @Ret.
#[global] Instance prog_bind : MBind prog := λ A B f p, bind p f.

Definition existsSync (path : string) : prog bool := lift (existsSync_prim path).
Definition readFileSync (path : string) : prog string :=
  lift (readFileSync_prim path).
Definition writeFileSync (path data : string) : prog unit :=
  lift (writeFileSync_prim path data).
Definition console_log (e : console_entry) : prog unit := lift (console_prim e).
Definition console_warn (e : console_entry) : prog unit := lift (console_prim e).
Definition console_error (e : console_entry) : prog unit := lift (console_prim e).

(** [await model.generateContent(prompt)] followed by
    [result.response.text()]: the request is recorded with the path of
    the file it is made for, then the program waits. *)
Definition generateContent (filePath prompt : string) : prog string :=
  Do (λ w, (Returns tt, add_request filePath prompt w))
     (λ _, Await prompt rethrow).

Fixpoint forEach {A} (l : list A) (f : A → prog unit) : prog unit :=
  match l with
  | [] => Ret tt
  | x :: rest => f x;; forEach rest f
  end.

(** ** Loading the ignore configuration (lines 10 to 18) *)

Definition load_ignorePatterns : prog (list string) :=
  found ← existsSync IGNORE_CONFIG_FILE;
  if found : bool
  then text ← readFileSync IGNORE_CONFIG_FILE; mret (parse_ignore_config text)
  else mret [].

(** ** The annotator, once per copy of the script *)

(** The template literal of the prompt. *)
Definition make_prompt (fileContent : string) : string :=
  "Write clear, professional comments for the following code:"
    +:+ nl +:+ nl +:+ fileContent.

(** The template literal of the second and third copy. *)
Definition comment_block (aiGeneratedDocs fileContent : string) : string :=
  "/*" +:+ nl +:+ aiGeneratedDocs +:+ nl +:+ "*/" +:+ nl +:+ nl +:+ fileContent.

Module IndexJs.
(** [src/index.js], lines 47 to 73: the replace policy. *)
Definition addDocumentation (filePath : string) : prog unit :=
  try_catch
    (fileContent ← readFileSync filePath;
     let prompt := make_prompt fileContent in
     aiGeneratedDocs ← generateContent filePath prompt;
     let docLines := split LF aiGeneratedDocs in
     docLines ←
       (if bool_decide (2 < length docLines)
        then mret (slice 1 (Z.of_nat (length docLines) - 2) docLines)
        else console_warn WarnTooShort;; mret docLines);
     let updatedContent := join nl docLines in
     writeFileSync filePath updatedContent;;
     console_log (LogDocumentationAdded filePath))
    (λ error, console_error (ErrorProcessing filePath error)).
End IndexJs.

Module TestJs.
(** [src/tests/Test.js], lines 91 to 103: the prepend policy. *)
Definition addDocumentation (filePath : string) : prog unit :=
  try_catch
    (fileContent ← readFileSync filePath;
     let prompt := make_prompt fileContent in
     aiGeneratedDocs ← generateContent filePath prompt;
     let updatedContent := comment_block aiGeneratedDocs fileContent in
     writeFileSync filePath updatedContent;;
     console_log (LogDocumentationAdded filePath))
    (λ error, console_error (ErrorProcessing filePath error)).
End TestJs.

Module Part000.
(** The third copy, lines 48 to 60: the prepend policy again. *)
Definition addDocumentation (filePath : string) : prog unit :=
  try_catch
    (fileContent ← readFileSync filePath;
     let prompt := make_prompt fileContent in
     aiGeneratedDocs ← generateContent filePath prompt;
     let updatedContent := comment_block aiGeneratedDocs fileContent in
     writeFileSync filePath updatedContent;;
     console_log (LogDocumentationAdded filePath))
    (λ error, console_error (ErrorProcessing filePath error)).
End Part000.

(** The three copies share everything but [addDocumentation]. *)
Inductive variant : Type := index_js | Test_js | part_000.

Definition addDocumentation (v : variant) : string → prog unit :=
  match v with
  | index_js => IndexJs.addDocumentation
  | Test_js => TestJs.addDocumentation
  | part_000 => Part000.addDocumentation
  end.

(** ** The tree walker *)

(** [path.join(dir, file)] of Node on POSIX, for the arguments the walker
    passes: a normalised absolute directory and an entry name.  Only the
    root directory ends with the separator. *)
Definition dir_prefix (dir : string) : string :=
  if String.eqb dir "/" then "" else dir.

Definition path_join (dir file : string) : string :=
  dir_prefix dir +:+ "/" +:+ file.

Section Walker.
Variable ignorePatterns : list string.
Variable v : variant.

(** [processFilesRecursively(dir)] hands its callback to [fs.readdir]
    and returns. *)
Definition processFilesRecursively (dir : string) : prog unit :=
  Spawn (ReaddirCb dir) (Ret tt).

(** The callback of [fs.readdir], lines 25 to 45. *)
Definition readdir_callback (dir : string) (res : outcome (list string))
    : prog unit :=
  match res with
  | Throws err => console_error (ErrorReadingDirectory dir err)
  | Returns files =>
      forEach files (λ file,
        let filePath := path_join dir file in
        if shouldIgnore ignorePatterns filePath then Ret tt
        else Spawn (StatCb filePath file) (Ret tt))
  end.

(** The callback of [fs.stat], lines 33 to 43.  Nothing follows the
    awaited call of [addDocumentation], so the callback is the call.  The
    [Do] step only records it. *)
Definition stat_callback (filePath file : string) (res : outcome stats)
    : prog unit :=
  match res with
  | Throws err => console_error (ErrorReadingFileStats filePath err)
  | Returns stats =>
      if isDirectory stats then processFilesRecursively filePath
      else if endsWith file ".js" || endsWith file ".ts" then
        Do (λ w, (Returns tt, add_invoked filePath file w))
           (λ _, addDocumentation v filePath)
      else Ret tt
  end.

End Walker.

(** ** The event loop *)

Inductive halt (A : Type) : Type :=
| Finished (a : A)
| Uncaught (e : exn)
| Blocked (prompt : string) (k : outcome string → prog A).
Arguments Finished {A} a.
Arguments Uncaught {A} e.
Arguments Blocked {A} prompt k.

(** Run a program up to its end or its first await; the callbacks it
    registered come back in order. *)
Fixpoint exec {A} (p : prog A) (w : world) : halt A * world * list callback :=
  match p with
  | Ret a => (Finished a, w, [])
  | Throw e => (Uncaught e, w, [])
  | Do m k => let '(o, w') := m w in exec (k o) w'
  | Spawn c k => let '(h, w', cs) := exec k w in (h, w', c :: cs)
  | Await prompt k => (Blocked prompt k, w, [])
  end.

Inductive task : Type :=
| Callback (c : callback)
| Continuation (prompt : string) (k : outcome string → prog unit).

(** The loop keeps the tasks that are due, the exception that ended the
    run if any, and every callback registered so far: the calls of
    [fs.readdir], one per call of [processFilesRecursively], and the
    calls of [fs.stat], one per directory entry that passed the filter. *)
Record state : Type := State {
  the_world : world;
  pending : list task;
  crashed : option exn;
  registered : list callback
}.

Section Loop.
Variable ignorePatterns : list string.
Variable v : variant.

(** What runs when a pending task is due: the callback with the result
    of its operation, or the continuation with the backend's reply. *)
Definition task_prog (t : task) (reply : outcome string) : prog unit :=
  match t with
  | Callback (ReaddirCb dir) =>
      Do (readdir_prim dir) (readdir_callback ignorePatterns dir)
  | Callback (StatCb filePath file) =>
      Do (stat_prim filePath) (stat_callback v filePath file)
  | Continuation _ k => k reply
  end.

(** The state after a task ran: an uncaught exception ends the run. *)
Definition settle (r : halt unit * world * list callback) (rest : list task)
    (before : list callback) : state :=
  let '(h, w, cs) := r in
  match h with
  | Finished _ => State w (rest ++ (Callback <$> cs)) None (before ++ cs)
  | Uncaught e => State w (rest ++ (Callback <$> cs)) (Some e) (before ++ cs)
  | Blocked prompt k =>
      State w (rest ++ (Callback <$> cs) ++ [Continuation prompt k]) None
            (before ++ cs)
  end.

(** The [i]-th pending task runs; [reply] is the backend's answer when
    the task is a continuation. *)
Definition fire (i : nat) (reply : outcome string) (s : state) : option state :=
  match pending s !! i with
  | Some t => Some (settle (exec (task_prog t reply) (the_world s))
                           (delete i (pending s)) (registered s))
  | None => None
  end.

(** One turn of the loop: any pending task, any reply. *)
Inductive step : state → state → Prop :=
| step_fire (i : nat) (reply : outcome string) (s s' : state) :
    crashed s = None → fire i reply s = Some s' → step s s'.

(** The last line of the script: the walk starts at the working
    directory. *)
Definition start (cwd : string) (w : world) : state :=
  settle (exec (processFilesRecursively cwd) w) [] [].

(** A run that always takes the oldest task, with a backend given as a
    function of the prompt. *)
Fixpoint run_fifo (backend : string → outcome string) (fuel : nat) (s : state)
    : state :=
  match fuel with
  | 0 => s
  | S fuel' =>
      match crashed s, pending s with
      | None, t :: _ =>
          let reply := match t with
                       | Continuation prompt _ => backend prompt
                       | Callback _ => Throws (BackendError "")
                       end in
          match fire 0 reply s with
          | Some s' => run_fifo backend fuel' s'
          | None => s
          end
      | _, _ => s
      end
  end.

End Loop.

(** The whole script: load the patterns, then start the walk. *)
Definition main (cwd : string) (w : world) : option (list string * state) :=
  match exec (console_log LogRunning;; load_ignorePatterns) w with
  | (Finished ignorePatterns, w', _) => Some (ignorePatterns, start cwd w')
  | _ => None
  end.

(** One annotate operation run on its own: the call up to its await,
    then the continuation with the backend's reply. *)
Definition annotate (v : variant) (filePath : string) (reply : outcome string)
    (w : world) : halt unit * world :=
  match exec (addDocumentation v filePath) w with
  | (Blocked _ k, w', _) => let '(h, w'', _) := exec (k reply) w' in (h, w'')
  | (h, w', _) => (h, w')
  end.

Definition example_fs : gmap string inode :=
  list_to_map [
    ("/w", Dir (Some ["a.js"; "b.ts"; "notes.txt"; "sub"; "node_modules"]));
    ("/w/a.js", File "const a = 1;" true true);
    ("/w/b.ts", File "let b;" true true);
    ("/w/notes.txt", File "text" true true);
    ("/w/sub", Dir (Some ["c.js"]));
    ("/w/sub/c.js", File "c()" false true);
    ("/w/node_modules", Dir (Some ["x.js"]));
    ("/w/node_modules/x.js", File "x" true true)].

Definition example_world : world := World example_fs [] [] [].

Definition five_lines : string :=
  "```js" +:+ nl +:+ "// adds" +:+ nl +:+ "const a = 1;" +:+ nl +:+ "```"
    +:+ nl +:+ "".

(** A backend for the examples: it fails on the prompt made for
    [/w/b.ts] and answers every other prompt with five lines. *)
Definition example_backend (prompt : string) : outcome string :=
  if includes prompt "let b;" then Throws (BackendError "quota exceeded")
  else Returns five_lines.

(** The example run to its end: the oldest task first. *)
Definition example_run (v : variant) : state :=
  run_fifo ["node_modules"] v example_backend 20 (start "/w" example_world).

(** The example run after three turns: the annotator waits for the
    backend on behalf of [/w/a.js] and of [/w/b.ts]. *)
Definition example_waiting : state :=
  run_fifo ["node_modules"] part_000 example_backend 3 (start "/w" example_world).

(** A configuration file with a comment, an indented pattern, a blank
    line and a second pattern, and a world that holds it. *)
Definition example_config : string :=
  "# generated code" +:+ nl +:+ "  node_modules " +:+ nl +:+ nl +:+ "dist"
    +:+ nl.

Definition configured_world : world :=
  World (<[IGNORE_CONFIG_FILE := File example_config true true]> example_fs)
        [] [] [].

(** A world in which the configuration file is a directory. *)
Definition broken_config_world : world :=
  World (<[IGNORE_CONFIG_FILE := Dir (Some [])]> example_fs) [] [] [].

(** ** Notions for the properties of a run *)

(** Writing files leaves every directory as it is. *)
Definition same_dirs (w w' : world) : Prop :=
  ∀ p l, fs w' !! p = Some (Dir l) ↔ fs w !! p = Some (Dir l).

(** A continuation that ends whatever the reply is, registers nothing,
    calls no annotator and sends no request. *)
Definition quiet (k : outcome string → prog unit) : Prop :=
  ∀ reply w, ∃ w',
    exec (k reply) w = (Finished tt, w', [])
    ∧ invoked w' = invoked w ∧ requests w' = requests w ∧ same_dirs w w'.

(** What a copy of the script writes for a file content and a reply. *)
Definition updatedContent (v : variant) (fileContent aiGeneratedDocs : string)
    : string :=
  match v with
  | index_js =>
      let docLines := split LF aiGeneratedDocs in
      join nl (if bool_decide (2 < length docLines)
               then slice 1 (Z.of_nat (length docLines) - 2) docLines
               else docLines)
  | Test_js | part_000 => comment_block aiGeneratedDocs fileContent
  end.

(** The world after the annotator got its reply: the warning of the
    first copy, the write, and the line logged for its outcome. *)
Definition write_back (v : variant) (filePath fileContent aiGeneratedDocs : string)
    (w : world) : world :=
  let w1 := match v with
            | index_js =>
                if bool_decide (2 < length (split LF aiGeneratedDocs)) then w
                else add_console WarnTooShort w
            | Test_js | part_000 => w
            end in
  match writeFileSync_prim filePath
          (updatedContent v fileContent aiGeneratedDocs) w1 with
  | (Returns _, w2) => add_console (LogDocumentationAdded filePath) w2
  | (Throws e, w2) => add_console (ErrorProcessing filePath e) w2
  end.

(** [k] is what is left of [addDocumentation] after its await, for the
    file [filePath] read as [fileContent]. *)
Definition resumes (v : variant) (filePath fileContent : string)
    (k : outcome string → prog unit) : Prop :=
  (∀ e w, exec (k (Throws e)) w
          = (Finished tt, add_console (ErrorProcessing filePath e) w, []))
  ∧ (∀ R w, exec (k (Returns R)) w
            = (Finished tt, write_back v filePath fileContent R w, [])).

(** The entries of [files] that pass the ignore filter, as the calls of
    [fs.stat] made for them. *)
Definition stat_calls (ignorePatterns : list string) (dir : string)
    (files : list string) : list callback :=
  (λ file, StatCb (path_join dir file) file)
    <$> filter (λ file, shouldIgnore ignorePatterns (path_join dir file) = false)
               files.

Definition task_ok (ignorePatterns : list string) (t : task) : Prop :=
  match t with
  | Callback (StatCb filePath _) => shouldIgnore ignorePatterns filePath = false
  | Callback (ReaddirCb _) => True
  | Continuation _ k => quiet k
  end.

(** What one turn of the loop does, case by case. *)
Inductive fired (ignorePatterns : list string) (w : world)
    : task → halt unit → world → list callback → Prop :=
| fired_readdir dir files :
    fs w !! dir = Some (Dir (Some files)) →
    fired ignorePatterns w (Callback (ReaddirCb dir)) (Finished tt) w
          (stat_calls ignorePatterns dir files)
| fired_readdir_err dir err :
    fired ignorePatterns w (Callback (ReaddirCb dir)) (Finished tt)
          (add_console (ErrorReadingDirectory dir err) w) []
| fired_stat_err filePath file err :
    fired ignorePatterns w (Callback (StatCb filePath file)) (Finished tt)
          (add_console (ErrorReadingFileStats filePath err) w) []
| fired_stat_dir filePath file l :
    fs w !! filePath = Some (Dir l) →
    fired ignorePatterns w (Callback (StatCb filePath file)) (Finished tt) w
          [ReaddirCb filePath]
| fired_stat_other filePath file :
    endsWith file ".js" || endsWith file ".ts" = false →
    fired ignorePatterns w (Callback (StatCb filePath file)) (Finished tt) w []
| fired_stat_unread filePath file e :
    endsWith file ".js" || endsWith file ".ts" = true →
    fired ignorePatterns w (Callback (StatCb filePath file)) (Finished tt)
          (add_console (ErrorProcessing filePath e)
                       (add_invoked filePath file w)) []
| fired_stat_request filePath file C k :
    endsWith file ".js" || endsWith file ".ts" = true →
    quiet k →
    fired ignorePatterns w (Callback (StatCb filePath file))
          (Blocked (make_prompt C) k)
          (add_request filePath (make_prompt C) (add_invoked filePath file w))
          []
| fired_continuation prompt k w' :
    invoked w' = invoked w → requests w' = requests w → same_dirs w w' →
    fired ignorePatterns w (Continuation prompt k) (Finished tt) w' [].

(** A name as [fs.readdir] returns it: not empty, no separator. *)
Definition entry_name (file : string) : bool :=
  truthy file && negb (includes file "/").

Definition listing_ok (i : inode) : bool :=
  match i with
  | Dir (Some files) => bool_decide (NoDup files) && forallb entry_name files
  | _ => true
  end.

(** Every directory lists distinct names. *)
Definition wf_listings (f : gmap string inode) : Prop :=
  map_Forall (λ _ i, listing_ok i = true) f.

(** [q] lies below the directory [p]. *)
Definition inside (p q : string) : Prop :=
  ∃ r, q = dir_prefix p +:+ "/" +:+ r.

(** Two paths of which neither lies below the other. *)
Definition apart (p q : string) : Prop :=
  dir_prefix p ≠ dir_prefix q ∧ ¬ inside p q ∧ ¬ inside q p.

Fixpoint pairwise_apart (l : list string) : Prop :=
  match l with
  | [] => True
  | p :: rest => Forall (apart p) rest ∧ pairwise_apart rest
  end.

Definition callback_path (c : callback) : string :=
  match c with
  | ReaddirCb dir => dir
  | StatCb filePath _ => filePath
  end.

Definition task_path (t : task) : option string :=
  match t with
  | Callback c => Some (callback_path c)
  | Continuation _ _ => None
  end.

(** The paths given to [fs.stat] so far: the directory entries visited. *)
Definition visited (cs : list callback) : list string :=
  omap (λ c, match c with
             | StatCb filePath _ => Some filePath
             | ReaddirCb _ => None
             end) cs.

(** The directories given to [fs.readdir] so far. *)
Definition listed (cs : list callback) : list string :=
  omap (λ c, match c with
             | ReaddirCb dir => Some dir
             | StatCb _ _ => None
             end) cs.

(** The paths that are still to be handled or were handed to the
    annotator. *)
Definition items (s : state) : list string :=
  omap task_path (pending s) ++ (invoked (the_world s)).*1.

Section Invariants.
Variable ignorePatterns : list string.
Variable cwd : string.

(** The run goes on and every pending task is in order. *)
Definition safe (s : state) : Prop :=
  crashed s = None ∧ Forall (task_ok ignorePatterns) (pending s).

(** Whatever was done passed the ignore filter and the suffix test. *)
Definition filtered (s : state) : Prop :=
  Forall (λ call, shouldIgnore ignorePatterns call.1 = false
                  ∧ endsWith call.2 ".js" || endsWith call.2 ".ts" = true)
         (invoked (the_world s))
  ∧ Forall (λ filePath, shouldIgnore ignorePatterns filePath = false)
           (visited (registered s))
  ∧ ∃ dirs, listed (registered s) = cwd :: dirs
            ∧ Forall (λ dir, shouldIgnore ignorePatterns dir = false) dirs.

(** No path is met twice. *)
Definition distinct (s : state) : Prop :=
  wf_listings (fs (the_world s))
  ∧ pairwise_apart (items s)
  ∧ (requests (the_world s)).*1 `sublist_of` (invoked (the_world s)).*1
  ∧ NoDup (visited (registered s))
  ∧ ∀ x q, x ∈ visited (registered s) → q ∈ omap task_path (pending s) →
           ¬ inside q x.

End Invariants.

(** ** Notions for further properties *)

(** [s] holds no line feed. *)
Definition single_line (s : string) : Prop := includes s nl = false.

(** The console lines that report how an annotate operation ended. *)
Definition is_outcome (e : console_entry) : bool :=
  match e with
  | LogDocumentationAdded _ | ErrorProcessing _ _ => true
  | _ => false
  end.

Definition outcomes (l : list console_entry) : nat :=
  length (filter (λ e, is_outcome e = true) l).

(** The annotate operations that wait for the backend. *)
Definition is_waiting (t : task) : bool :=
  match t with
  | Continuation _ _ => true
  | Callback _ => false
  end.

Definition waiting (l : list task) : nat :=
  length (filter (λ t, is_waiting t = true) l).

(** Two inodes of the same kind: both missing, the same directory, or
    files with the same permissions. *)
Definition same_kind (i j : option inode) : Prop :=
  match i, j with
  | None, None => True
  | Some (Dir l), Some (Dir l') => l = l'
  | Some (File _ r wr), Some (File _ r' wr') => r = r' ∧ wr = wr'
  | _, _ => False
  end.

(** A waiting annotate operation for [w]: it belongs to a file that was
    there at the start [w0] and was handed to the annotator; in the
    prepend copies what it read ends with what the file held at the
    start. *)
Definition tracked (v : variant) (w0 w : world) (t : task) : Prop :=
  match t with
  | Continuation prompt k =>
      ∃ p C,
        resumes v p C k ∧ prompt = make_prompt C
        ∧ p ∈ (invoked w).*1
        ∧ ∃ C0 wr, fs w0 !! p = Some (File C0 true wr)
                   ∧ (v ≠ index_js → ∃ pre, C = pre +:+ C0)
  | Callback _ => True
  end.

(** The books of a run that started in [w0]. *)
Definition ledger (v : variant) (w0 : world) (s : state) : Prop :=
  (∀ p, same_kind (fs w0 !! p) (fs (the_world s) !! p))
  ∧ (∀ p, p ∉ (invoked (the_world s)).*1 →
          fs (the_world s) !! p = fs w0 !! p)
  ∧ (∀ p, (∀ C, fs w0 !! p ≠ Some (File C true true)) →
          fs (the_world s) !! p = fs w0 !! p)
  ∧ (v ≠ index_js → ∀ p C0 r wr,
       fs w0 !! p = Some (File C0 r wr) →
       ∃ C', fs (the_world s) !! p = Some (File C' r wr)
             ∧ ∃ pre, C' = pre +:+ C0)
  ∧ Forall (tracked v w0 (the_world s)) (pending s)
  ∧ outcomes (console (the_world s)) + waiting (pending s)
    = outcomes (console w0) + length (invoked (the_world s)).


(** The turns a pending task can still take by itself: a call of
    [fs.stat] may be followed by one listing or by one continuation. *)
Definition task_weight (t : task) : nat :=
  match t with
  | Callback (StatCb _ _) => 2
  | Callback (ReaddirCb _) | Continuation _ _ => 1
  end.

Definition weight (l : list task) : nat := sum_list_with task_weight l.

(** The directory entries of a file system, as paths. *)
Definition dir_entries (f : gmap string inode) : list string :=
  '(dir, i) ← map_to_list f;
  match i with
  | Dir (Some files) => path_join dir <$> files
  | _ => []
  end.

(** The directory entries that the walk is to reach from [cwd] in the
    file system [f], each with the name it has in its directory: an
    entry of [cwd] or of a reached directory, with a path that passes
    the ignore filter. *)
Inductive reached (ignorePatterns : list string) (f : gmap string inode)
    (cwd : string) : string → string → Prop :=
| reached_top files file :
    f !! cwd = Some (Dir (Some files)) → file ∈ files →
    shouldIgnore ignorePatterns (path_join cwd file) = false →
    reached ignorePatterns f cwd (path_join cwd file) file
| reached_below dir name files file :
    reached ignorePatterns f cwd dir name →
    f !! dir = Some (Dir (Some files)) → file ∈ files →
    shouldIgnore ignorePatterns (path_join dir file) = false →
    reached ignorePatterns f cwd (path_join dir file) file.

(** The callback [c] has done its work: a listing has registered a call
    of [fs.stat] for every entry that passes the filter, a call of
    [fs.stat] has registered the listing of its directory or has called
    the annotator on its source file. *)
Definition processed (ignorePatterns : list string) (f : gmap string inode)
    (reg : list callback) (calls : list (string * string)) (c : callback)
    : Prop :=
  match c with
  | ReaddirCb dir =>
      ∀ files file,
        f !! dir = Some (Dir (Some files)) → file ∈ files →
        shouldIgnore ignorePatterns (path_join dir file) = false →
        StatCb (path_join dir file) file ∈ reg
  | StatCb filePath file =>
      (∀ l, f !! filePath = Some (Dir l) → ReaddirCb filePath ∈ reg)
      ∧ (∀ C r wr, f !! filePath = Some (File C r wr) →
                   endsWith file ".js" || endsWith file ".ts" = true →
                   (filePath, file) ∈ calls)
  end.

(** Every registered callback is pending or has done its work. *)
Definition closed (ignorePatterns : list string) (w0 : world) (s : state)
    : Prop :=
  ∀ c, c ∈ registered s →
       Callback c ∈ pending s
       ∨ processed ignorePatterns (fs w0) (registered s)
                   (invoked (the_world s)) c.

(** Where a registered callback comes from. *)
Definition origin (ignorePatterns : list string) (f : gmap string inode)
    (cwd : string) (c : callback) : Prop :=
  match c with
  | ReaddirCb dir =>
      dir = cwd ∨ ∃ name l, reached ignorePatterns f cwd dir name
                            ∧ f !! dir = Some (Dir l)
  | StatCb filePath file => reached ignorePatterns f cwd filePath file
  end.

(** ** Facts on strings *)

Lemma app_cons_str (c : ascii) (a b : string) :
  String c a +:+ b = String c (a +:+ b).
Proof. done. Qed.

Lemma app_nil_l_str (s : string) : "" +:+ s = s.
Proof. done. Qed.

Lemma app_nil_r_str (s : string) : s +:+ "" = s.
Proof. induction s as [|c s IH]; [done|]. by rewrite app_cons_str, IH. Qed.

Lemma app_assoc_str (a b c : string) : (a +:+ b) +:+ c = a +:+ b +:+ c.
Proof.
  induction a as [|x a IH]; [done|]. by rewrite !app_cons_str, IH.
Qed.

Lemma prefix_true_iff (p s : string) :
  String.prefix p s = true ↔ ∃ rest, s = p +:+ rest.
Proof.
  revert s. induction p as [|c p IH]; intros s.
  - split; [intros _; by exists s|]. intros _. by destruct s.
  - destruct s as [|d s]; simpl.
    + split; [done|]. intros [rest H]. discriminate H.
    + destruct (ascii_dec c d) as [->|Hne].
      * rewrite IH. split; intros [rest H]; exists rest.
        -- by rewrite H.
        -- by injection H.
      * split; [done|]. intros [rest H]. injection H as ? ?. congruence.
Qed.

Lemma includes_nil (p : string) : includes "" p = String.prefix p "".
Proof. cbn [includes]. apply orb_false_r. Qed.

Lemma includes_cons (c : ascii) (s p : string) :
  includes (String c s) p = String.prefix p (String c s) || includes s p.
Proof. done. Qed.

Lemma includes_true_iff (s p : string) :
  includes s p = true ↔ substring_of p s.
Proof.
  induction s as [|c s IH].
  - rewrite includes_nil, prefix_true_iff. split.
    + intros [rest H]. by exists "", rest.
    + intros [[|x before] [after H]]; [by exists after|discriminate H].
  - rewrite includes_cons, orb_true_iff, IH, prefix_true_iff. split.
    + intros [[rest H]|[before [after H]]].
      * by exists "", rest.
      * exists (String c before), after. by rewrite H.
    + intros [[|x before] [after H]].
      * left. by exists after.
      * right. exists before, after. by injection H.
Qed.

(** C3. [shouldIgnore] is true exactly when some pattern of the list is a
    substring of the path; it is false for every path when the list is
    empty. *)
Theorem shouldIgnore_iff_some_pattern_substring :
  (∀ (P : string) (S : list string),
     shouldIgnore S P = true ↔ ∃ pattern, pattern ∈ S ∧ substring_of pattern P)
  ∧ (∀ P : string, shouldIgnore [] P = false).
Proof.
  split; [|done].
  intros P S. unfold shouldIgnore. rewrite existsb_exists. split.
  - intros (pattern & Hin & Hinc).
    exists pattern. by rewrite list_elem_of_In, <- includes_true_iff.
  - intros (pattern & Hin & Hsub).
    exists pattern. by rewrite <- list_elem_of_In, includes_true_iff.
Qed.
(** ** Facts on lines *)

Lemma split_cons_cases (sep : ascii) (s : string) :
  ∃ line lines, split sep s = line :: lines.
Proof.
  induction s as [|c s (line & lines & IH)]; [by eexists _, _|].
  cbn [split]. rewrite IH. destruct (Ascii.eqb c sep); by eexists _, _.
Qed.

Lemma join_cons_String (c : ascii) (line : string) (lines : list string) :
  join nl (String c line :: lines) = String c (join nl (line :: lines)).
Proof. by destruct lines. Qed.

(** Joining the lines of a text gives the text back. *)
Lemma join_split (s : string) : join nl (split LF s) = s.
Proof.
  induction s as [|c s IH]; [done|].
  cbn [split]. destruct (split_cons_cases LF s) as (line & lines & Hs).
  rewrite Hs in *. destruct (Ascii.eqb_spec c LF) as [->|_].
  - by rewrite <- IH.
  - by rewrite join_cons_String, IH.
Qed.

Lemma slice_inner {A} (x y z : A) (m : list A) :
  slice 1 (Z.of_nat (length (x :: m ++ [y; z])) - 2) (x :: m ++ [y; z]) = m.
Proof.
  unfold slice, slice_index. cbn [length]. rewrite length_app. cbn [length].
  rewrite !(proj2 (Z.ltb_ge _ 0)) by lia.
  replace (Z.to_nat (1 `min` Z.of_nat (S (length m + 2)))) with 1 by lia.
  replace (Z.to_nat _) with (length m) by lia.
  cbn [drop]. apply take_app_length.
Qed.

Lemma long_list_inner {A} (l : list A) :
  2 < length l → ∃ x m y z, l = x :: m ++ [y; z].
Proof.
  intros Hlen. destruct l as [|x l]; [simpl in Hlen; lia|].
  exists x, (take (length l - 2) l).
  assert (Hd : length (drop (length l - 2) l) = 2).
  { rewrite length_drop. simpl in Hlen. lia. }
  destruct (drop (length l - 2) l) as [|y [|z [|? ?]]] eqn:Hdrop;
    simpl in Hd; try lia.
  exists y, z. by rewrite <- Hdrop, take_drop.
Qed.
(** ** Facts on trimming *)

Lemma trimStart_spec (s : string) :
  ∃ ws, s = ws +:+ trimStart s ∧ all_white_space ws = true.
Proof.
  induction s as [|c s (ws & IH & Hws)]; [by exists ""|].
  cbn [trimStart]. destruct (is_white_space c) eqn:Hc.
  - exists (String c ws). rewrite app_cons_str, <- IH. split; [done|].
    cbn [all_white_space]. by rewrite Hc, Hws.
  - by exists "".
Qed.

Lemma trimStart_head (s : string) (c : ascii) (rest : string) :
  trimStart s = String c rest → is_white_space c = false.
Proof.
  induction s as [|d s IH]; [done|].
  cbn [trimStart]. destruct (is_white_space d) eqn:Hd; [done|].
  intros [= <- _]. done.
Qed.

Lemma trimEnd_spec (s : string) :
  ∃ ws, s = trimEnd s +:+ ws ∧ all_white_space ws = true.
Proof.
  induction s as [|c s (ws & IH & Hws)]; [by exists ""|].
  cbn [trimEnd]. destruct (is_white_space c) eqn:Hc;
    [destruct (String.eqb_spec (trimEnd s) "") as [Hnil|Hnil]|]; cbn [andb].
  - exists (String c ws). rewrite Hnil in IH. rewrite app_nil_l_str in *.
    split; [by rewrite <- IH|]. cbn [all_white_space]. by rewrite Hc, Hws.
  - exists ws. by rewrite app_cons_str, <- IH.
  - exists ws. by rewrite app_cons_str, <- IH.
Qed.

Lemma trimEnd_last (s init : string) (c : ascii) :
  trimEnd s = init +:+ String c "" → is_white_space c = false.
Proof.
  revert init. induction s as [|d s IH]; intros init.
  - by destruct init.
  - cbn [trimEnd].
    destruct (is_white_space d && String.eqb (trimEnd s) "") eqn:Hd.
    + by destruct init.
    + destruct init as [|x init].
      * rewrite app_nil_l_str. intros [= -> Hnil].
        rewrite Hnil in Hd. cbn in Hd. by rewrite andb_true_r in Hd.
      * rewrite app_cons_str. intros [= _ Hrest]. by eapply IH.
Qed.

Lemma trimEnd_head (c : ascii) (rest : string) :
  is_white_space c = false → trimEnd (String c rest) = String c (trimEnd rest).
Proof. intros Hc. cbn [trimEnd]. by rewrite Hc. Qed.

(** [trim] removes white space at both ends and nothing else. *)
Lemma trim_spec (line : string) :
  ∃ before after,
    line = before +:+ trim line +:+ after
    ∧ all_white_space before = true ∧ all_white_space after = true
    ∧ (∀ c rest, trim line = String c rest → is_white_space c = false)
    ∧ (∀ init c, trim line = init +:+ String c "" → is_white_space c = false).
Proof.
  destruct (trimStart_spec line) as (before & Hb & Hwb).
  destruct (trimEnd_spec (trimStart line)) as (after & Ha & Hwa).
  exists before, after. unfold trim. rewrite <- Ha, <- Hb.
  repeat split; try done.
  - intros c rest. destruct (trimStart line) as [|d s] eqn:Hs; [done|].
    rewrite trimEnd_head by by eapply trimStart_head.
    intros [= <- _]. by eapply trimStart_head.
  - intros init c. apply trimEnd_last.
Qed.

(** ** The ignore configuration *)

Lemma truthy_true_iff (s : string) : truthy s = true ↔ s ≠ "".
Proof. unfold truthy. by destruct (String.eqb_spec s ""). Qed.

(** The pipeline of the script yields the list the description states. *)
Lemma parse_ignore_config_spec (text : string) :
  parse_ignore_config text = spec_patterns text.
Proof.
  unfold parse_ignore_config, spec_patterns.
  induction (split LF text) as [|line lines IH]; [done|].
  cbn [map]. rewrite !filter_cons, IH.
  destruct (decide (truthy (trim line) && negb (startsWith (trim line) "#")
                    = true)) as [H|H];
    destruct (decide (trim line ≠ "" ∧ startsWith (trim line) "#" = false))
      as [H'|H']; try done; exfalso.
  - apply H'. apply andb_true_iff in H as [H1 H2].
    split; [by apply truthy_true_iff|by apply negb_true_iff].
  - apply H. destruct H' as [H1 H2].
    apply andb_true_iff. split; [by apply truthy_true_iff|by apply negb_true_iff].
Qed.

Lemma load_absent w :
  fs w !! IGNORE_CONFIG_FILE = None →
  exec load_ignorePatterns w = (Finished [], w, []).
Proof.
  intros Hw. cbn. unfold existsSync_prim. rewrite Hw.
  rewrite bool_decide_eq_false_2 by (by intros [? ?]). done.
Qed.

Lemma load_present w text writable :
  fs w !! IGNORE_CONFIG_FILE = Some (File text true writable) →
  exec load_ignorePatterns w = (Finished (spec_patterns text), w, []).
Proof.
  intros Hw. cbn. unfold existsSync_prim. rewrite Hw.
  rewrite bool_decide_eq_true_2 by done. cbn.
  unfold readFileSync_prim. rewrite Hw. cbn.
  by rewrite parse_ignore_config_spec.
Qed.

Lemma exec_bind_log {A} (e : console_entry) (p : prog A) (w : world) :
  exec (console_log e;; p) w = exec p (add_console e w).
Proof. done. Qed.

(** C6. Loading yields the empty list, without throwing, when the
    configuration file is absent.  When the file is there, it yields the
    lines that, trimmed of leading and trailing white space, are not
    empty and do not start with [#], each in its trimmed form. *)
Theorem load_ignorePatterns_spec :
  (∀ w, fs w !! IGNORE_CONFIG_FILE = None →
        exec load_ignorePatterns w = (Finished [], w, []))
  ∧ (∀ w text writable,
        fs w !! IGNORE_CONFIG_FILE = Some (File text true writable) →
        exec load_ignorePatterns w = (Finished (spec_patterns text), w, []))
  ∧ (∀ line, ∃ before after,
        line = before +:+ trim line +:+ after
        ∧ all_white_space before = true ∧ all_white_space after = true
        ∧ (∀ c rest, trim line = String c rest → is_white_space c = false)
        ∧ (∀ init c, trim line = init +:+ String c "" →
                     is_white_space c = false)).
Proof.
  split; [exact load_absent|]. split; [exact load_present|apply trim_spec].
Qed.

Lemma load_ignorePatterns_spec_witness :
  fs example_world !! IGNORE_CONFIG_FILE = None
  ∧ exec load_ignorePatterns example_world = (Finished [], example_world, [])
  ∧ fs configured_world !! IGNORE_CONFIG_FILE
    = Some (File example_config true true)
  ∧ exec load_ignorePatterns configured_world
    = (Finished (spec_patterns example_config), configured_world, [])
  ∧ spec_patterns example_config = ["node_modules"; "dist"].
Proof.
  assert (H1 : fs example_world !! IGNORE_CONFIG_FILE = None) by reflexivity.
  assert (H2 : fs configured_world !! IGNORE_CONFIG_FILE
               = Some (File example_config true true)) by reflexivity.
  split; [exact H1|].
  split; [exact (proj1 load_ignorePatterns_spec example_world H1)|].
  split; [exact H2|].
  split; [exact (proj1 (proj2 load_ignorePatterns_spec) configured_world
                   example_config true H2)|].
  reflexivity.
Defined.

(** The script as a whole: with a readable configuration file, or none,
    it loads the patterns and starts the walk in the working directory. *)
Lemma main_starts_walk cwd w :
  (fs w !! IGNORE_CONFIG_FILE = None →
   main cwd w = Some ([], start cwd (add_console LogRunning w)))
  ∧ (∀ text writable,
       fs w !! IGNORE_CONFIG_FILE = Some (File text true writable) →
       main cwd w
       = Some (spec_patterns text, start cwd (add_console LogRunning w))).
Proof.
  unfold main. split.
  - intros Hw. rewrite exec_bind_log.
    by rewrite (load_absent (add_console LogRunning w)).
  - intros text writable Hw. rewrite exec_bind_log.
    by rewrite (load_present (add_console LogRunning w) text writable).
Qed.
(** ** The annotate operation *)

Lemma annotate_index_js w filePath original writable response :
  fs w !! filePath = Some (File original true writable) →
  annotate index_js filePath (Returns response) w =
    let docLines := split LF response in
    let w1 := add_request filePath (make_prompt original) w in
    let w2 := if bool_decide (2 < length docLines) then w1
              else add_console WarnTooShort w1 in
    let docLines' :=
      if bool_decide (2 < length docLines)
      then slice 1 (Z.of_nat (length docLines) - 2) docLines else docLines in
    if writable
    then (Finished tt,
          add_console (LogDocumentationAdded filePath)
            (set_fs (<[filePath := File (join nl docLines') true true]> (fs w))
                    w2))
    else (Finished tt,
          add_console (ErrorProcessing filePath (EACCES filePath)) w2).
Proof.
  intros Hw. unfold annotate. cbn. unfold readFileSync_prim. rewrite Hw. cbn.
  destruct (bool_decide (2 < length (split LF response))); cbn;
    unfold writeFileSync_prim; cbn; rewrite Hw; by destruct writable.
Qed.
(** C1. With a response of more than two lines, the replace policy
    overwrites the whole file with the lines 2 to total-2 of the response
    joined by newlines: the first line, the last two lines and the
    original content are gone. *)
Theorem replace_policy_writes_inner_lines w filePath original response :
  fs w !! filePath = Some (File original true true) →
  2 < length (split LF response) →
  ∃ first inner last1 last2 w',
    split LF response = first :: inner ++ [last1; last2]
    ∧ annotate index_js filePath (Returns response) w = (Finished tt, w')
    ∧ fs w' = <[filePath := File (join nl inner) true true]> (fs w).
Proof.
  intros Hw Hlen.
  destruct (long_list_inner _ Hlen) as (first & inner & last1 & last2 & Hs).
  exists first, inner, last1, last2. eexists. split; [done|].
  rewrite (annotate_index_js _ _ _ _ _ Hw). cbn zeta.
  rewrite bool_decide_eq_true_2 by done. split; [done|].
  cbn [fs add_console set_fs]. by rewrite Hs, slice_inner.
Qed.

Lemma replace_policy_writes_inner_lines_witness :
  fs example_world !! "/w/a.js" = Some (File "const a = 1;" true true)
  ∧ 2 < length (split LF five_lines)
  ∧ ∃ first inner last1 last2 w',
      split LF five_lines = first :: inner ++ [last1; last2]
      ∧ annotate index_js "/w/a.js" (Returns five_lines) example_world
        = (Finished tt, w')
      ∧ fs w' = <[ "/w/a.js" := File (join nl inner) true true]>
                  (fs example_world).
Proof.
  assert (H1 : fs example_world !! "/w/a.js"
               = Some (File "const a = 1;" true true)) by reflexivity.
  assert (H2 : 2 < length (split LF five_lines)) by (vm_compute; lia).
  split; [exact H1|]. split; [exact H2|].
  exact (replace_policy_writes_inner_lines _ _ _ _ H1 H2).
Defined.

(** C5, as stated, fails: with a response of two lines the file does not
    keep its content, it receives the response. *)
Lemma replace_policy_short_response_overwrites :
  let response := "line one" +:+ nl +:+ "line two" in
  let w' := (annotate index_js "/w/a.js" (Returns response) example_world).2 in
  length (split LF response) = 2
  ∧ fs example_world !! "/w/a.js" = Some (File "const a = 1;" true true)
  ∧ fs w' !! "/w/a.js" = Some (File response true true)
  ∧ fs w' !! "/w/a.js" ≠ fs example_world !! "/w/a.js".
Proof. cbn zeta. by vm_compute. Qed.

(** C5, amended. With a response of two or fewer lines, the replace
    policy logs a warning, skips the trim and overwrites the whole file
    with the response as it is. *)
Theorem replace_policy_short_response w filePath original response :
  fs w !! filePath = Some (File original true true) →
  length (split LF response) ≤ 2 →
  ∃ w',
    annotate index_js filePath (Returns response) w = (Finished tt, w')
    ∧ fs w' = <[filePath := File response true true]> (fs w)
    ∧ console w' = console w ++ [WarnTooShort; LogDocumentationAdded filePath].
Proof.
  intros Hw Hlen. eexists.
  rewrite (annotate_index_js _ _ _ _ _ Hw). cbn zeta.
  rewrite bool_decide_eq_false_2 by lia. split; [done|].
  cbn [fs console add_console add_request set_fs].
  by rewrite join_split, <- app_assoc.
Qed.

Lemma replace_policy_short_response_witness :
  fs example_world !! "/w/a.js" = Some (File "const a = 1;" true true)
  ∧ length (split LF "no code here") ≤ 2
  ∧ ∃ w',
      annotate index_js "/w/a.js" (Returns "no code here") example_world
      = (Finished tt, w')
      ∧ fs w' = <[ "/w/a.js" := File "no code here" true true]>
                  (fs example_world)
      ∧ console w' = console example_world
                     ++ [WarnTooShort; LogDocumentationAdded "/w/a.js"].
Proof.
  assert (H1 : fs example_world !! "/w/a.js"
               = Some (File "const a = 1;" true true)) by reflexivity.
  assert (H2 : length (split LF "no code here") ≤ 2) by (vm_compute; lia).
  split; [exact H1|]. split; [exact H2|].
  exact (replace_policy_short_response _ _ _ _ H1 H2).
Defined.

(** C10. With a response of exactly three lines, the replace policy
    writes the empty string: the file loses its content, and no warning
    is logged. *)
Theorem replace_policy_three_lines_erases w filePath original response :
  fs w !! filePath = Some (File original true true) →
  length (split LF response) = 3 →
  ∃ w',
    annotate index_js filePath (Returns response) w = (Finished tt, w')
    ∧ fs w' = <[filePath := File "" true true]> (fs w)
    ∧ console w' = console w ++ [LogDocumentationAdded filePath].
Proof.
  intros Hw Hlen. eexists.
  rewrite (annotate_index_js _ _ _ _ _ Hw). cbn zeta.
  rewrite bool_decide_eq_true_2 by lia. split; [done|].
  cbn [fs console add_console add_request set_fs]. split; [|done].
  destruct (split LF response) as [|l1 [|l2 [|l3 [|? ?]]]]; try done.
Qed.

Lemma replace_policy_three_lines_erases_witness :
  let response := "```js" +:+ nl +:+ "```" +:+ nl +:+ "" in
  fs example_world !! "/w/a.js" = Some (File "const a = 1;" true true)
  ∧ length (split LF response) = 3
  ∧ ∃ w',
      annotate index_js "/w/a.js" (Returns response) example_world
      = (Finished tt, w')
      ∧ fs w' = <[ "/w/a.js" := File "" true true]> (fs example_world)
      ∧ console w' = console example_world ++ [LogDocumentationAdded "/w/a.js"].
Proof.
  cbn zeta.
  assert (H1 : fs example_world !! "/w/a.js"
               = Some (File "const a = 1;" true true)) by reflexivity.
  assert (H2 : length (split LF ("```js" +:+ nl +:+ "```" +:+ nl +:+ "")) = 3)
    by reflexivity.
  split; [exact H1|]. split; [exact H2|].
  exact (replace_policy_three_lines_erases _ _ _ _ H1 H2).
Defined.
Lemma annotate_prepend v w filePath original writable response :
  v = Test_js ∨ v = part_000 →
  fs w !! filePath = Some (File original true writable) →
  annotate v filePath (Returns response) w =
    let w1 := add_request filePath (make_prompt original) w in
    if writable
    then (Finished tt,
          add_console (LogDocumentationAdded filePath)
            (set_fs (<[filePath := File (comment_block response original)
                                        true true]> (fs w)) w1))
    else (Finished tt,
          add_console (ErrorProcessing filePath (EACCES filePath)) w1).
Proof.
  intros [-> | ->] Hw; unfold annotate; cbn; unfold readFileSync_prim;
    rewrite Hw; cbn; unfold writeFileSync_prim; cbn; rewrite Hw;
    by destruct writable.
Qed.

(** C2. The prepend policy of the second and third copy writes back the
    response wrapped in a block comment, then an empty line, then the
    original content, which is a suffix of what is written; for the
    content [const a = 1;] and the response [Adds one.] it writes the
    text of the description. *)
Theorem prepend_policy_writes_comment_then_original :
  (∀ v w filePath C R,
     v = Test_js ∨ v = part_000 →
     fs w !! filePath = Some (File C true true) →
     ∃ w' written,
       annotate v filePath (Returns R) w = (Finished tt, w')
       ∧ fs w' = <[filePath := File written true true]> (fs w)
       ∧ written = "/*" +:+ nl +:+ R +:+ nl +:+ "*/" +:+ nl +:+ nl +:+ C
       ∧ ∃ before, written = before +:+ C)
  ∧ (∀ v, v = Test_js ∨ v = part_000 →
     fs (annotate v "/w/a.js" (Returns "Adds one.") example_world).2
       !! "/w/a.js"
     = Some (File "/*
Adds one.
*/

const a = 1;" true true)).
Proof.
  split.
  - intros v w filePath C R Hv Hw. eexists _, _.
    rewrite (annotate_prepend _ _ _ _ _ _ Hv Hw). cbn zeta.
    split; [done|]. split; [done|]. split; [done|].
    exists ("/*" +:+ nl +:+ R +:+ nl +:+ "*/" +:+ nl +:+ nl).
    unfold comment_block. by rewrite !app_assoc_str.
  - by intros v [-> | ->].
Qed.

Lemma prepend_policy_writes_comment_then_original_witness :
  fs example_world !! "/w/b.ts" = Some (File "let b;" true true)
  ∧ ∃ w' written,
      annotate part_000 "/w/b.ts" (Returns "A variable.") example_world
      = (Finished tt, w')
      ∧ fs w' = <[ "/w/b.ts" := File written true true]> (fs example_world)
      ∧ written = "/*" +:+ nl +:+ "A variable." +:+ nl +:+ "*/" +:+ nl +:+ nl
                    +:+ "let b;"
      ∧ ∃ before, written = before +:+ "let b;".
Proof.
  assert (H1 : fs example_world !! "/w/b.ts" = Some (File "let b;" true true))
    by reflexivity.
  split; [exact H1|].
  exact (proj1 prepend_policy_writes_comment_then_original
           part_000 example_world "/w/b.ts" "let b;" "A variable."
           (or_intror eq_refl) H1).
Defined.

(** C9. The annotate operations of the second and the third copy are
    the same program: for every file, every world (so every original
    content) and every reply of the backend they end in the same world,
    so they write the same string; whole runs of the two copies agree
    turn by turn. *)
Theorem prepend_copies_equivalent :
  (∀ filePath, TestJs.addDocumentation filePath
               = Part000.addDocumentation filePath)
  ∧ (∀ filePath reply w,
       annotate Test_js filePath reply w = annotate part_000 filePath reply w)
  ∧ (∀ ignorePatterns i reply s,
       fire ignorePatterns Test_js i reply s
       = fire ignorePatterns part_000 i reply s).
Proof. done. Qed.
(** ** One turn of the loop *)

Lemma exec_bind {A B} (p : prog A) (f : A → prog B) (w : world) :
  exec (p ≫= f) w =
    match exec p w with
    | (Finished a, w', cs) =>
        let '(h, w'', cs') := exec (f a) w' in (h, w'', cs ++ cs')
    | (Uncaught e, w', cs) => (Uncaught e, w', cs)
    | (Blocked prompt k, w', cs) => (Blocked prompt (λ o, k o ≫= f), w', cs)
    end.
Proof.
  revert w. induction p as [a|e|X m k IH|c k IH|prompt k IH]; intros w.
  - cbn. by destruct (exec (f a) w) as [[h w'] cs].
  - done.
  - cbn. destruct (m w) as [o w']. apply IH.
  - cbn. change (bind k f) with (k ≫= f). rewrite IH.
    destruct (exec k w) as [[[a|e|prompt k'] w'] cs]; [|done..].
    by destruct (exec (f a) w') as [[h w''] cs'].
  - done.
Qed.

Lemma exec_forEach_stat ignorePatterns dir files w :
  exec (forEach files (λ file,
          let filePath := path_join dir file in
          if shouldIgnore ignorePatterns filePath then Ret tt
          else Spawn (StatCb filePath file) (Ret tt))) w
  = (Finished tt, w, stat_calls ignorePatterns dir files).
Proof.
  unfold stat_calls. induction files as [|file files IH]; [done|].
  cbn [forEach]. rewrite exec_bind, filter_cons. cbn zeta.
  destruct (shouldIgnore ignorePatterns (path_join dir file)) eqn:Hig.
  - cbn [exec]. rewrite IH. by rewrite decide_False by done.
  - cbn [exec]. rewrite IH. by rewrite decide_True by done.
Qed.

Lemma same_dirs_refl w : same_dirs w w.
Proof. done. Qed.

Lemma same_dirs_insert_file w p content r wr w' :
  (∀ l, fs w !! p ≠ Some (Dir l)) →
  fs w' = <[p := File content r wr]> (fs w) →
  same_dirs w w'.
Proof.
  intros Hp Hw' q l. rewrite Hw'. destruct (decide (p = q)) as [<-|Hne].
  - rewrite lookup_insert_eq. split; [done|]. intros H. by apply Hp in H.
  - by rewrite lookup_insert_ne.
Qed.


(** A call of [addDocumentation] up to its await: either the file
    cannot be read, which is logged, or one request is sent and the rest
    waits for the reply. *)
Lemma exec_addDocumentation v filePath w :
  (∃ e, exec (addDocumentation v filePath) w
        = (Finished tt, add_console (ErrorProcessing filePath e) w, [])
        ∧ ∀ C wr, fs w !! filePath ≠ Some (File C true wr))
  ∨ (∃ C wr k,
       fs w !! filePath = Some (File C true wr)
       ∧ exec (addDocumentation v filePath) w
         = (Blocked (make_prompt C) k,
            add_request filePath (make_prompt C) w, [])
       ∧ resumes v filePath C k).
Proof.
  destruct (fs w !! filePath) as [[l|C [|] wr]|] eqn:Hw.
  1, 3, 4: left; destruct v; cbn; unfold readFileSync_prim; rewrite Hw; cbn;
    eexists; (split; [reflexivity|]); congruence.
  right. exists C, wr.
  destruct v; cbn; unfold readFileSync_prim; rewrite Hw; cbn;
    eexists; (split; [done|]); (split; [reflexivity|]);
    (split; [done|]); intros R w2; cbn; unfold write_back; cbn.
  - destruct (bool_decide (2 < length (split LF R))); cbn;
      destruct (writeFileSync_prim _ _ _) as [[[]|e] w3]; reflexivity.
  - destruct (writeFileSync_prim _ _ _) as [[[]|e] w3]; reflexivity.
  - destruct (writeFileSync_prim _ _ _) as [[[]|e] w3]; reflexivity.
Qed.

Lemma writeFileSync_prim_frame filePath data w o w' :
  writeFileSync_prim filePath data w = (o, w') →
  invoked w' = invoked w ∧ requests w' = requests w ∧ console w' = console w
  ∧ same_dirs w w'.
Proof.
  unfold writeFileSync_prim.
  destruct (fs w !! filePath) as [[l|content r [|]]|] eqn:Hw;
    intros [= <- <-]; (split; [done|]); (split; [done|]); (split; [done|]).
  - apply same_dirs_refl.
  - eapply same_dirs_insert_file; [|reflexivity]. congruence.
  - apply same_dirs_refl.
  - eapply same_dirs_insert_file; [|reflexivity]. congruence.
Qed.

Lemma write_back_frame v filePath C R w :
  invoked (write_back v filePath C R w) = invoked w
  ∧ requests (write_back v filePath C R w) = requests w
  ∧ same_dirs w (write_back v filePath C R w).
Proof.
  unfold write_back.
  set (w1 := match v with index_js => _ | _ => w end).
  assert (Hw1 : invoked w1 = invoked w ∧ requests w1 = requests w
                ∧ fs w1 = fs w).
  { subst w1. destruct v; [|done..].
    by destruct (bool_decide (2 < length (split LF R))). }
  destruct Hw1 as (Hi & Hr & Hf).
  destruct (writeFileSync_prim filePath (updatedContent v C R) w1)
    as [[[]|e] w2] eqn:Hwrite;
    apply writeFileSync_prim_frame in Hwrite as (Hi2 & Hr2 & _ & Hd);
    cbn; rewrite Hi2, Hr2, Hi, Hr; (split; [done|]); (split; [done|]);
    intros p l; cbn; rewrite (Hd p l); by rewrite Hf.
Qed.

Lemma resumes_quiet v filePath C k : resumes v filePath C k → quiet k.
Proof.
  intros [Hthrow Hret] [R|e] w.
  - rewrite Hret. eexists. split; [done|]. apply write_back_frame.
  - rewrite Hthrow. eexists. split; [done|]. done.
Qed.

Section Turn.
Variable ignorePatterns : list string.
Variable v : variant.

Lemma exec_task_fired (t : task) (reply : outcome string) (w : world) :
  task_ok ignorePatterns t →
  ∃ h w' cs,
    exec (task_prog ignorePatterns v t reply) w = (h, w', cs)
    ∧ fired ignorePatterns w t h w' cs.
Proof.
  intros Hok. destruct t as [[dir|filePath file]|prompt k].
  - cbn [task_prog exec]. unfold readdir_prim.
    destruct (fs w !! dir) as [[[files|]|content r wr]|] eqn:Hw.
    + cbn [readdir_callback]. rewrite exec_forEach_stat.
      eexists _, _, _. split; [done|]. by constructor.
    + eexists _, _, _. split; [reflexivity|]. constructor.
    + eexists _, _, _. split; [reflexivity|]. constructor.
    + eexists _, _, _. split; [reflexivity|]. constructor.
  - cbn [task_prog exec]. unfold stat_prim.
    destruct (fs w !! filePath) as [[l|content r wr]|] eqn:Hw.
    + eexists _, _, _. split; [reflexivity|]. by econstructor.
    + cbn [stat_callback isDirectory].
      destruct (endsWith file ".js" || endsWith file ".ts") eqn:Hsuf.
      * cbn [exec].
        destruct (exec_addDocumentation v filePath
                    (add_invoked filePath file w))
          as [(e & -> & _)|(C & wr' & k & _ & -> & Hk)].
        -- eexists _, _, _. split; [done|]. by constructor.
        -- eexists _, _, _. split; [done|].
           constructor; [done|by eapply resumes_quiet].
      * eexists _, _, _. split; [reflexivity|]. by constructor.
    + eexists _, _, _. split; [reflexivity|]. constructor.
  - cbn [task_prog]. destruct (Hok reply w) as (w' & -> & ? & ? & ?).
    eexists _, _, _. split; [done|]. by constructor.
Qed.

(** A turn taken in a state whose tasks are in order. *)
Lemma step_fired (s s' : state) :
  step ignorePatterns v s s' →
  Forall (task_ok ignorePatterns) (pending s) →
  ∃ i t h w' cs,
    pending s !! i = Some t
    ∧ fired ignorePatterns (the_world s) t h w' cs
    ∧ s' = settle (h, w', cs) (delete i (pending s)) (registered s).
Proof.
  intros [i reply s0 s0' Hc Hfire] Hok. unfold fire in Hfire.
  destruct (pending s0 !! i) as [t|] eqn:Ht; [|done].
  injection Hfire as <-.
  destruct (exec_task_fired t reply (the_world s0)) as (h & w' & cs & -> & Hf).
  { eapply Forall_lookup_1; eauto. }
  by exists i, t, h, w', cs.
Qed.

End Turn.
(** ** Facts on paths *)

Lemma app_eq_app_str (a x b y : string) :
  a +:+ x = b +:+ y →
  ∃ m, (a = b +:+ m ∧ y = m +:+ x) ∨ (b = a +:+ m ∧ x = m +:+ y).
Proof.
  revert b. induction a as [|c a IH]; intros b H.
  - exists b. right. by rewrite !app_nil_l_str in *.
  - destruct b as [|d b].
    + exists (String c a). left. by rewrite !app_nil_l_str in *.
    + rewrite !app_cons_str in H. injection H as -> H.
      destruct (IH _ H) as (m & [[-> ->]|[-> ->]]); exists m; [left|right];
        by rewrite ?app_cons_str.
Qed.

Lemma app_eq_nil_str (a b : string) : a +:+ b = "" → a = "" ∧ b = "".
Proof. by destruct a. Qed.

Lemma app_id_r_str (a b : string) : a = a +:+ b → b = "".
Proof.
  induction a as [|c a IH]; [done|].
  rewrite app_cons_str. intros [= H]. by apply IH.
Qed.

Lemma entry_name_spec (file : string) :
  entry_name file = true → file ≠ "" ∧ ∀ a b, file ≠ a +:+ "/" +:+ b.
Proof.
  unfold entry_name. intros [Ht Hs]%andb_true_iff.
  split; [by apply truthy_true_iff|].
  intros a b ->. apply negb_true_iff in Hs.
  assert (includes (a +:+ "/" +:+ b) "/" = true); [|congruence].
  apply includes_true_iff. by exists a, b.
Qed.

Lemma dir_prefix_not_root (p : string) : p ≠ "/" → dir_prefix p = p.
Proof. unfold dir_prefix. by destruct (String.eqb_spec p "/"). Qed.

Lemma dir_prefix_root_or_self (p : string) :
  (p = "/" ∧ dir_prefix p = "") ∨ (p ≠ "/" ∧ dir_prefix p = p).
Proof.
  unfold dir_prefix. destruct (String.eqb_spec p "/"); [by left|by right].
Qed.

Lemma path_join_not_root (dir file : string) :
  file ≠ "" → path_join dir file ≠ "/".
Proof.
  unfold path_join. intros Hf H.
  destruct (dir_prefix dir) as [|c p].
  - rewrite app_nil_l_str in H. injection H as H. done.
  - rewrite app_cons_str in H. injection H as _ H.
    apply app_eq_nil_str in H as [_ H]. done.
Qed.

Lemma dir_prefix_path_join (dir file : string) :
  file ≠ "" → dir_prefix (path_join dir file) = path_join dir file.
Proof. intros. by apply dir_prefix_not_root, path_join_not_root. Qed.

Lemma path_join_inj (dir file file' : string) :
  path_join dir file = path_join dir file' → file = file'.
Proof.
  unfold path_join. intros H.
  apply (inj (String.app _)) in H. by apply (inj (String.app _)) in H.
Qed.

Lemma inside_path_join (dir file : string) : inside dir (path_join dir file).
Proof. by exists file. Qed.

Lemma inside_below_path_join (dir file x : string) :
  file ≠ "" → inside (path_join dir file) x → inside dir x.
Proof.
  intros Hf [r ->]. rewrite dir_prefix_path_join by done.
  exists (file +:+ "/" +:+ r). unfold path_join.
  by rewrite !app_assoc_str.
Qed.

(** A path with a slash-free last component splits in one way only. *)
Lemma last_component_split (a b file r : string) :
  (∀ x y, file ≠ x +:+ "/" +:+ y) →
  a +:+ "/" +:+ file = b +:+ "/" +:+ r →
  (a = b ∧ r = file) ∨ (∃ r0, a = b +:+ "/" +:+ r0 ∧ r = r0 +:+ "/" +:+ file).
Proof.
  intros Hfile H. apply app_eq_app_str in H as (m & [[-> H]|[-> H]]).
  - destruct m as [|c m].
    + left. rewrite app_nil_r_str. rewrite ?app_cons_str, ?app_nil_l_str in H.
      by injection H as ->.
    + right. rewrite ?app_cons_str, ?app_nil_l_str in H.
      injection H as <- ->. by exists m.
  - destruct m as [|c m].
    + left. rewrite app_nil_r_str. rewrite ?app_cons_str, ?app_nil_l_str in H.
      by injection H as ->.
    + exfalso. rewrite ?app_cons_str, ?app_nil_l_str in H.
      injection H as <- H. exact (Hfile m r H).
Qed.

Lemma inside_path_join_inv (x dir file : string) :
  entry_name file = true →
  inside x (path_join dir file) →
  dir_prefix x = dir_prefix dir ∨ inside x dir.
Proof.
  intros [Hne Hfree]%entry_name_spec [r H]. unfold path_join in H.
  apply last_component_split in H as [[H _]|(r0 & H & _)]; [by left| |done].
  right. exists r0.
  destruct (dir_prefix_root_or_self dir) as [[_ Hd]|[_ Hd]];
    rewrite Hd in H; [|done].
  symmetry in H. by apply app_eq_nil_str in H as [_ ?].
Qed.

Lemma not_inside_sibling (dir file file' : string) :
  file ≠ "" → entry_name file' = true →
  ¬ inside (path_join dir file) (path_join dir file').
Proof.
  intros Hne [_ Hfree]%entry_name_spec [r H].
  rewrite dir_prefix_path_join in H by done. unfold path_join in H.
  rewrite !app_assoc_str in H.
  apply (inj (String.app _)) in H. apply (inj (String.app _)) in H.
  by eapply Hfree.
Qed.

Lemma apart_sym (p q : string) : apart p q → apart q p.
Proof. intros (? & ? & ?). by repeat split. Qed.

Lemma apart_ne (p q : string) : apart p q → p ≠ q.
Proof. intros [H _] ->. done. Qed.

Lemma apart_siblings (dir file file' : string) :
  entry_name file = true → entry_name file' = true → file ≠ file' →
  apart (path_join dir file) (path_join dir file').
Proof.
  intros Hf Hf' Hne.
  destruct (entry_name_spec _ Hf) as [Hn _].
  destruct (entry_name_spec _ Hf') as [Hn' _].
  split; [|split].
  - rewrite !dir_prefix_path_join by done. by intros ?%path_join_inj.
  - by apply not_inside_sibling.
  - by apply not_inside_sibling.
Qed.

Lemma apart_child (dir file x : string) :
  entry_name file = true → apart dir x → apart (path_join dir file) x.
Proof.
  intros Hf (Hpre & Hdx & Hxd).
  destruct (entry_name_spec _ Hf) as [Hn _].
  split; [|split].
  - rewrite dir_prefix_path_join by done. intros H.
    destruct (dir_prefix_root_or_self x) as [[_ Hx]|[_ Hx]]; rewrite Hx in H.
    + unfold path_join in H. by apply app_eq_nil_str in H as [_ ?].
    + apply Hdx. rewrite <- H. apply inside_path_join.
  - intros H. by apply Hdx, (inside_below_path_join dir file).
  - intros H. apply inside_path_join_inv in H as [H|H]; [|done..].
    by apply Hpre.
Qed.
(** ** Invariants of a run *)

Lemma settle_world h w cs rest reg : the_world (settle (h, w, cs) rest reg) = w.
Proof. by destruct h. Qed.

Lemma settle_registered h w cs rest reg :
  registered (settle (h, w, cs) rest reg) = reg ++ cs.
Proof. by destruct h. Qed.

Lemma omap_task_path_callbacks (cs : list callback) :
  omap task_path (Callback <$> cs) = callback_path <$> cs.
Proof. induction cs as [|c cs IH]; [done|]. cbn. by rewrite IH. Qed.

Lemma settle_pending_paths h w cs rest reg :
  omap task_path (pending (settle (h, w, cs) rest reg))
  = omap task_path rest ++ (callback_path <$> cs).
Proof.
  destruct h; cbn; rewrite !omap_app, omap_task_path_callbacks; [done..|].
  cbn. by rewrite app_nil_r.
Qed.

Lemma callback_path_stat_calls ignorePatterns dir files :
  callback_path <$> stat_calls ignorePatterns dir files
  = path_join dir
      <$> filter (λ file, shouldIgnore ignorePatterns (path_join dir file)
                          = false) files.
Proof. unfold stat_calls. by rewrite <- list_fmap_compose. Qed.

Lemma visited_stat_calls ignorePatterns dir files :
  visited (stat_calls ignorePatterns dir files)
  = callback_path <$> stat_calls ignorePatterns dir files.
Proof.
  unfold stat_calls, visited.
  induction (filter _ files) as [|file l IH]; [done|]. cbn. by rewrite IH.
Qed.

Lemma listed_stat_calls ignorePatterns dir files :
  listed (stat_calls ignorePatterns dir files) = [].
Proof.
  unfold stat_calls, listed.
  induction (filter _ files) as [|file l IH]; [done|]. done.
Qed.

Lemma stat_calls_not_ignored ignorePatterns dir files :
  Forall (λ filePath, shouldIgnore ignorePatterns filePath = false)
         (callback_path <$> stat_calls ignorePatterns dir files).
Proof.
  rewrite callback_path_stat_calls. apply Forall_fmap, Forall_forall.
  by intros file [? _]%list_elem_of_filter.
Qed.

Lemma stat_calls_ok ignorePatterns dir files :
  Forall (task_ok ignorePatterns)
         (Callback <$> stat_calls ignorePatterns dir files).
Proof.
  unfold stat_calls. rewrite <- list_fmap_compose.
  apply Forall_fmap, Forall_forall. by intros file [? _]%list_elem_of_filter.
Qed.

Section Run.
Variable ignorePatterns : list string.
Variable v : variant.
Variable cwd : string.

Lemma safe_start w : safe ignorePatterns (start cwd w).
Proof. split; [done|]. by repeat constructor. Qed.

Lemma safe_fired s i t h w' cs :
  safe ignorePatterns s →
  pending s !! i = Some t →
  fired ignorePatterns (the_world s) t h w' cs →
  safe ignorePatterns (settle (h, w', cs) (delete i (pending s)) (registered s)).
Proof.
  intros [Hc Hok] Ht Hf.
  assert (Ht_ok : task_ok ignorePatterns t) by (eapply Forall_lookup_1; eauto).
  assert (Hrest : Forall (task_ok ignorePatterns) (delete i (pending s)))
    by by apply Forall_delete.
  inversion Hf; subst; (split; [done|]); cbn [settle pending];
    rewrite ?Forall_app; repeat split; try done; try by repeat constructor.
  apply stat_calls_ok.
Qed.

Lemma step_settle s s' :
  safe ignorePatterns s → step ignorePatterns v s s' →
  ∃ i t h w' cs,
    pending s !! i = Some t
    ∧ fired ignorePatterns (the_world s) t h w' cs
    ∧ s' = settle (h, w', cs) (delete i (pending s)) (registered s)
    ∧ safe ignorePatterns s'.
Proof.
  intros Hsafe Hstep.
  destruct (step_fired _ _ _ _ Hstep (proj2 Hsafe))
    as (i & t & h & w' & cs & Ht & Hf & ->).
  exists i, t, h, w', cs. repeat split; try done; by eapply safe_fired.
Qed.

(** A property of the start that every turn of a safe state keeps holds
    all along the run, and so does safety. *)
Lemma run_invariant (P : state → Prop) w :
  P (start cwd w) →
  (∀ s i t h w' cs,
     safe ignorePatterns s → P s → pending s !! i = Some t →
     fired ignorePatterns (the_world s) t h w' cs →
     P (settle (h, w', cs) (delete i (pending s)) (registered s))) →
  ∀ s, rtc (step ignorePatterns v) (start cwd w) s →
       safe ignorePatterns s ∧ P s.
Proof.
  intros Hstart Hkeep. apply rtc_ind_r.
  - split; [apply safe_start|done].
  - intros s1 s2 _ Hstep [Hsafe HP].
    destruct (step_settle _ _ Hsafe Hstep)
      as (i & t & h & w' & cs & Ht & Hf & -> & Hsafe').
    split; [done|]. by eapply Hkeep.
Qed.

Lemma filtered_start w :
  invoked w = [] → filtered ignorePatterns cwd (start cwd w).
Proof.
  intros Hw. split; [|split].
  - cbn. rewrite Hw. constructor.
  - constructor.
  - by exists [].
Qed.

Lemma filtered_fired s i t h w' cs :
  safe ignorePatterns s → filtered ignorePatterns cwd s →
  pending s !! i = Some t →
  fired ignorePatterns (the_world s) t h w' cs →
  filtered ignorePatterns cwd
    (settle (h, w', cs) (delete i (pending s)) (registered s)).
Proof.
  intros [_ Hok] (Hinv & Hvis & dirs & Hdirs & Hlisted) Ht Hf.
  assert (Ht_ok : task_ok ignorePatterns t) by (eapply Forall_lookup_1; eauto).
  unfold filtered. rewrite settle_world, settle_registered.
  unfold visited, listed in *. rewrite !omap_app.
  inversion Hf; subst; cbn [omap invoked add_console add_invoked add_request];
    rewrite ?app_nil_r.
  - fold (visited (stat_calls ignorePatterns dir files)).
    fold (listed (stat_calls ignorePatterns dir files)).
    rewrite visited_stat_calls, listed_stat_calls, app_nil_r.
    split; [done|]. split; [|by exists dirs].
    apply Forall_app. split; [done|apply stat_calls_not_ignored].
  - split; [done|]. split; [done|by exists dirs].
  - split; [done|]. split; [done|by exists dirs].
  - split; [done|]. split; [done|].
    exists (dirs ++ [filePath]). rewrite Hdirs. split; [done|].
    apply Forall_app. split; [done|]. by repeat constructor.
  - split; [done|]. split; [done|by exists dirs].
  - split; [|split; [done|by exists dirs]].
    apply Forall_app. split; [done|]. by repeat constructor.
  - split; [|split; [done|by exists dirs]].
    apply Forall_app. split; [done|]. by repeat constructor.
  - split; [congruence|]. split; [done|by exists dirs].
Qed.

End Run.
(** ** The walker and the filter *)

Lemma endsWith_true_iff (s p : string) :
  endsWith s p = true ↔ ∃ stem, s = stem +:+ p.
Proof.
  induction s as [|c s IH]; cbn [endsWith]; rewrite orb_true_iff.
  - rewrite String.eqb_eq. split.
    + intros [<-|?]; [by exists ""|done].
    + intros [stem H]. left. symmetry in H.
      apply app_eq_nil_str in H as [_ ->]. done.
  - rewrite String.eqb_eq, IH. split.
    + intros [<-|[stem ->]]; [by exists ""|by exists (String c stem)].
    + intros [[|d stem] H]; [by left|right].
      rewrite app_cons_str in H. injection H as _ ->. by exists stem.
Qed.

Lemma run_fifo_reachable ignorePatterns v backend fuel s :
  rtc (step ignorePatterns v) s (run_fifo ignorePatterns v backend fuel s).
Proof.
  revert s. induction fuel as [|fuel IH]; intros s; [done|].
  cbn [run_fifo]. destruct (crashed s) eqn:Hc; [done|].
  destruct (pending s) as [|t rest] eqn:Hp; [done|].
  match goal with |- context [fire _ _ 0 ?r s] =>
    destruct (fire ignorePatterns v 0 r s) as [s'|] eqn:Hfire; [|done];
    apply rtc_l with s'; [by apply (step_fire _ _ 0 r)|apply IH]
  end.
Qed.

(** C4. In every state of every run, whatever the directory tree and
    the pattern list: the annotator was invoked only on paths that
    [shouldIgnore] rejects not and on files whose name ends in [.js] or
    [.ts]; no ignored entry was given to [fs.stat]; and the walker
    listed, besides the directory it started in, only directories that
    are not ignored. *)
Theorem walker_respects_filter ignorePatterns v cwd w s :
  invoked w = [] →
  rtc (step ignorePatterns v) (start cwd w) s →
  (∀ filePath file,
     (filePath, file) ∈ invoked (the_world s) →
     shouldIgnore ignorePatterns filePath = false
     ∧ ∃ stem, file = stem +:+ ".js" ∨ file = stem +:+ ".ts")
  ∧ (∀ filePath, filePath ∈ visited (registered s) →
                 shouldIgnore ignorePatterns filePath = false)
  ∧ ∃ dirs, listed (registered s) = cwd :: dirs
            ∧ ∀ dir, dir ∈ dirs → shouldIgnore ignorePatterns dir = false.
Proof.
  intros Hw Hrun.
  destruct (run_invariant ignorePatterns v cwd (filtered ignorePatterns cwd) w)
    with (s := s) as [_ (Hinv & Hvis & dirs & Hdirs & Hlisted)];
    [by apply filtered_start|apply filtered_fired|done|].
  split; [|split].
  - intros filePath file Hin.
    destruct (proj1 (Forall_forall _ _) Hinv _ Hin) as [Hig Hsuf].
    split; [done|]. cbn in Hsuf.
    apply orb_true_iff in Hsuf as [[stem ->]%endsWith_true_iff
                                  |[stem ->]%endsWith_true_iff];
      exists stem; [by left|by right].
  - by apply Forall_forall.
  - exists dirs. split; [done|]. by apply Forall_forall.
Qed.

Lemma walker_respects_filter_witness :
  invoked example_world = []
  ∧ rtc (step ["node_modules"] index_js) (start "/w" example_world)
        (example_run index_js)
  ∧ (∀ filePath file,
       (filePath, file) ∈ invoked (the_world (example_run index_js)) →
       shouldIgnore ["node_modules"] filePath = false
       ∧ ∃ stem, file = stem +:+ ".js" ∨ file = stem +:+ ".ts")
  ∧ (∀ filePath, filePath ∈ visited (registered (example_run index_js)) →
                 shouldIgnore ["node_modules"] filePath = false)
  ∧ ∃ dirs, listed (registered (example_run index_js)) = "/w" :: dirs
            ∧ ∀ dir, dir ∈ dirs → shouldIgnore ["node_modules"] dir = false.
Proof.
  assert (H1 : invoked example_world = []) by reflexivity.
  assert (H2 : rtc (step ["node_modules"] index_js) (start "/w" example_world)
                   (example_run index_js)) by apply run_fifo_reachable.
  split; [exact H1|]. split; [exact H2|].
  exact (walker_respects_filter _ _ _ _ _ H1 H2).
Defined.
(** ** No path twice *)

Lemma pairwise_apart_Permutation (l l' : list string) :
  l ≡ₚ l' → pairwise_apart l → pairwise_apart l'.
Proof.
  induction 1 as [|x l l' Hperm IH|x y l|l1 l2 l3 _ IH1 _ IH2]; cbn.
  - done.
  - intros [Hx Hl]. split; [by rewrite <- Hperm|by apply IH].
  - intros [[Hyx Hy]%Forall_cons [Hx Hl]].
    repeat split; try done. constructor; [by apply apart_sym|done].
  - auto.
Qed.

#[local] Instance pairwise_apart_proper :
  Proper ((≡ₚ) ==> iff) pairwise_apart.
Proof.
  intros l l' Hperm. split; apply pairwise_apart_Permutation; [done|].
  by symmetry.
Qed.

Lemma pairwise_apart_NoDup (l : list string) : pairwise_apart l → NoDup l.
Proof.
  induction l as [|x l IH]; [constructor|]. intros [Hx Hl].
  constructor; [|by apply IH]. intros Hin.
  apply (apart_ne x x); [|done]. by apply (proj1 (Forall_forall _ _) Hx).
Qed.

(** A directory gives way to its entries. *)
Lemma pairwise_apart_children (dir : string) (files rest : list string) :
  NoDup files → Forall (λ file, entry_name file = true) files →
  pairwise_apart (dir :: rest) →
  pairwise_apart ((path_join dir <$> files) ++ rest).
Proof.
  intros Hnd Hnames [Hdir Hrest].
  induction Hnd as [|file files Hnotin Hnd IH]; [done|].
  apply Forall_cons in Hnames as [Hfile Hnames].
  cbn. split; [|by apply IH].
  apply Forall_app. split.
  - apply Forall_fmap, Forall_forall. intros file' Hin. cbn.
    apply apart_siblings; [done| |by intros ->].
    by eapply (proj1 (Forall_forall _ _) Hnames).
  - eapply Forall_impl; [exact Hdir|]. intros x Hx. by apply apart_child.
Qed.

Lemma wf_listings_lookup (f : gmap string inode) dir files :
  wf_listings f → f !! dir = Some (Dir (Some files)) →
  NoDup files ∧ Forall (λ file, entry_name file = true) files.
Proof.
  intros Hwf Hdir. specialize (Hwf _ _ Hdir). cbn in Hwf.
  apply andb_true_iff in Hwf as [Hnd Hall]. split.
  - by apply bool_decide_eq_true in Hnd.
  - apply Forall_forall. intros file Hin.
    by apply (proj1 (forallb_forall _ _) Hall), list_elem_of_In.
Qed.

Lemma wf_listings_same_dirs (w w' : world) :
  same_dirs w w' → wf_listings (fs w) → wf_listings (fs w').
Proof.
  intros Hsame Hwf p [l|content r wr] Hp; [|done].
  apply Hsame in Hp. exact (Hwf _ _ Hp).
Qed.

Lemma pending_paths_split (s : state) (i : nat) (t : task) :
  pending s !! i = Some t →
  omap task_path (pending s)
  ≡ₚ option_list (task_path t) ++ omap task_path (delete i (pending s)).
Proof.
  intros Ht. rewrite (delete_Permutation _ _ _ Ht) at 1. cbn.
  by destruct (task_path t).
Qed.

Lemma visited_app (cs cs' : list callback) :
  visited (cs ++ cs') = visited cs ++ visited cs'.
Proof. apply omap_app. Qed.

Section Distinct.
Variable ignorePatterns : list string.

Lemma distinct_start cwd w :
  wf_listings (fs w) → invoked w = [] → requests w = [] →
  distinct (start cwd w).
Proof.
  intros Hwf Hinv Hreq. unfold distinct, items. cbn. rewrite Hinv, Hreq.
  repeat split; try done; try constructor. by intros x q ?%elem_of_nil.
Qed.

Lemma distinct_fired s i t h w' cs :
  safe ignorePatterns s → distinct s →
  pending s !! i = Some t →
  fired ignorePatterns (the_world s) t h w' cs →
  distinct (settle (h, w', cs) (delete i (pending s)) (registered s)).
Proof.
  intros [_ Hok] (Hwf & Hpair & Hsub & Hnd & Hout) Ht Hf.
  pose proof (pending_paths_split _ _ _ Ht) as Hsplit.
  unfold items in Hpair. rewrite Hsplit in Hpair.
  assert (Hout' : ∀ x q, x ∈ visited (registered s) →
            q ∈ option_list (task_path t) ++ omap task_path (delete i (pending s)) →
            ¬ inside q x).
  { intros x q Hx Hq. apply Hout; [done|]. by rewrite Hsplit. }
  clear Hout Hsplit.
  unfold distinct, items.
  rewrite settle_world, settle_registered, settle_pending_paths.
  set (base := omap task_path (delete i (pending s))) in *.
  rewrite visited_app.
  inversion Hf; subst; simpl in Hpair, Hout'; rewrite ?visited_stat_calls;
    simpl; rewrite ?app_nil_r.
  - (* a directory is listed *)
    rewrite callback_path_stat_calls.
    destruct (wf_listings_lookup _ _ _ Hwf H) as [Hnames Hentries].
    set (kept := filter _ files).
    assert (Hkept_nd : NoDup kept) by by apply NoDup_filter.
    assert (Hkept : Forall (λ file, entry_name file = true) kept).
    { apply Forall_forall. intros file [_ Hin]%list_elem_of_filter.
      by apply (proj1 (Forall_forall _ _) Hentries). }
    assert (Hchildren : pairwise_apart
              ((path_join dir <$> kept) ++ base ++ (invoked (the_world s)).*1))
      by by apply pairwise_apart_children.
    assert (Hfresh : ∀ x, x ∈ visited (registered s) →
                          x ∉ path_join dir <$> kept).
    { intros x Hx (file & -> & _)%list_elem_of_fmap.
      apply (Hout' _ dir Hx); [left|apply inside_path_join]. }
    split; [done|]. split; [|split; [done|split]].
    + by rewrite (comm (++) base), <- (assoc (++)).
    + apply NoDup_app. split; [done|]. split; [done|].
      apply pairwise_apart_NoDup in Hchildren. by apply NoDup_app in Hchildren as [? _].
    + intros x q [Hx|(file & -> & Hfile)%list_elem_of_fmap]%elem_of_app
                 [Hq|(file' & -> & Hfile')%list_elem_of_fmap]%elem_of_app.
      * apply Hout'; [done|by right].
      * intros Hin. apply (Hout' x dir Hx); [left|].
        apply (inside_below_path_join dir file'); [|done].
        by apply entry_name_spec, (proj1 (Forall_forall _ _) Hkept).
      * intros Hin. destruct Hpair as [Hdir _].
        assert (Hq_apart : apart dir q).
        { apply (proj1 (Forall_forall _ _) Hdir), elem_of_app. by left. }
        destruct Hq_apart as (Hpre & _ & Hqd).
        apply inside_path_join_inv in Hin as [Hin|Hin]; [by apply Hpre|done|].
        by apply (proj1 (Forall_forall _ _) Hkept).
      * apply not_inside_sibling.
        -- by apply entry_name_spec, (proj1 (Forall_forall _ _) Hkept).
        -- by apply (proj1 (Forall_forall _ _) Hkept).
  - (* a directory cannot be listed *)
    repeat split; try done; [by destruct Hpair|].
    intros x q Hx Hq. apply Hout'; [done|by right].
  - (* an entry cannot be examined *)
    repeat split; try done; [by destruct Hpair|].
    intros x q Hx Hq. apply Hout'; [done|by right].
  - (* an entry is a directory *)
    repeat split; try done.
    + by rewrite (comm (++) base), <- (assoc (++)).
    + intros x q Hx Hq. apply Hout'; [done|].
      apply elem_of_app in Hq as [Hq|Hq%list_elem_of_singleton];
        [by right|subst q; left].
  - (* an entry is another kind of file *)
    repeat split; try done; [by destruct Hpair|].
    intros x q Hx Hq. apply Hout'; [done|by right].
  - (* the annotator is called and cannot read *)
    rewrite fmap_app. repeat split; try done.
    + change ([(filePath, file)].*1) with [filePath].
      by rewrite (assoc (++)), (comm (++) _ [filePath]).
    + by apply sublist_inserts_r.
    + intros x q Hx Hq. apply Hout'; [done|by right].
  - (* the annotator is called and sends its request *)
    rewrite !fmap_app. repeat split; try done.
    + change ([(filePath, file)].*1) with [filePath].
      by rewrite (assoc (++)), (comm (++) _ [filePath]).
    + by apply sublist_app.
    + intros x q Hx Hq. apply Hout'; [done|by right].
  - (* a continuation ends *)
    match goal with
    | Hi : invoked _ = _, Hr : requests _ = _ |- _ => rewrite Hi, Hr
    end.
    repeat split; try done. by eapply wf_listings_same_dirs.
Qed.

(** Along a run that starts in a world without calls and requests, no
    path is met twice. *)
Lemma distinct_run v cwd w s :
  wf_listings (fs w) → invoked w = [] → requests w = [] →
  rtc (step ignorePatterns v) (start cwd w) s →
  safe ignorePatterns s ∧ distinct s.
Proof.
  intros Hwf Hinv Hreq. apply run_invariant.
  - by apply distinct_start.
  - apply distinct_fired.
Qed.

End Distinct.
Lemma example_fs_wf : wf_listings example_fs.
Proof. unfold wf_listings. apply (bool_decide_unpack _). by vm_compute. Qed.

(** C8, as stated, fails: a call of the annotator on a file that cannot
    be read sends no request, so there is not one request per call; and
    the entries of an ignored directory are not visited at all. *)
Lemma unreadable_file_sends_no_request :
  let s := example_run index_js in
  pending s = []
  ∧ fs example_world !! "/w/sub/c.js" = Some (File "c()" false true)
  ∧ (invoked (the_world s)).*1 = ["/w/a.js"; "/w/b.ts"; "/w/sub/c.js"]
  ∧ (requests (the_world s)).*1 = ["/w/a.js"; "/w/b.ts"]
  ∧ length (requests (the_world s)) ≠ length (invoked (the_world s))
  ∧ fs example_world !! "/w/node_modules" = Some (Dir (Some ["x.js"]))
  ∧ visited (registered s)
    = ["/w/a.js"; "/w/b.ts"; "/w/notes.txt"; "/w/sub"; "/w/sub/c.js"].
Proof. cbn zeta. by vm_compute. Qed.

(** C8, amended. In a run over a directory tree whose directories list
    distinct names, every file path is submitted to the backend at most
    once: the walk visits no directory entry twice and calls the
    annotator at most once per path, and a call of the annotator sends
    at most one request, exactly one when it can read the file and none
    when it cannot. *)
Theorem each_path_submitted_at_most_once ignorePatterns v cwd w s :
  wf_listings (fs w) → invoked w = [] → requests w = [] →
  rtc (step ignorePatterns v) (start cwd w) s →
  NoDup (requests (the_world s)).*1
  ∧ NoDup (visited (registered s))
  ∧ NoDup (invoked (the_world s)).*1
  ∧ (requests (the_world s)).*1 `sublist_of` (invoked (the_world s)).*1
  ∧ ∀ filePath w0,
      (∃ C wr k,
         fs w0 !! filePath = Some (File C true wr)
         ∧ exec (addDocumentation v filePath) w0
           = (Blocked (make_prompt C) k,
              add_request filePath (make_prompt C) w0, [])
         ∧ ∀ reply w1, ∃ w2,
             exec (k reply) w1 = (Finished tt, w2, [])
             ∧ requests w2 = requests w1)
      ∨ (∃ e,
           (∀ C wr, fs w0 !! filePath ≠ Some (File C true wr))
           ∧ exec (addDocumentation v filePath) w0
             = (Finished tt, add_console (ErrorProcessing filePath e) w0, [])).
Proof.
  intros Hwf Hinv Hreq Hrun.
  destruct (distinct_run ignorePatterns v cwd w s Hwf Hinv Hreq Hrun)
    as [_ (_ & Hpair & Hsub & Hvis & _)].
  assert (Hnd : NoDup (invoked (the_world s)).*1).
  { apply pairwise_apart_NoDup in Hpair. by apply NoDup_app in Hpair as (_&_&?). }
  split; [by eapply sublist_NoDup|]. do 3 (split; [done|]).
  intros filePath w0.
  destruct (exec_addDocumentation v filePath w0)
    as [(e & He & Hno)|(C & wr & k & Hfile & He & Hk)].
  - right. by exists e.
  - left. exists C, wr, k. do 2 (split; [done|]). intros reply w1.
    destruct (resumes_quiet _ _ _ _ Hk reply w1) as (w2 & Hw2 & _ & Hr & _).
    by exists w2.
Qed.

Lemma each_path_submitted_at_most_once_witness :
  wf_listings (fs example_world)
  ∧ invoked example_world = [] ∧ requests example_world = []
  ∧ rtc (step ["node_modules"] Test_js) (start "/w" example_world)
        (example_run Test_js)
  ∧ NoDup (requests (the_world (example_run Test_js))).*1
  ∧ NoDup (visited (registered (example_run Test_js)))
  ∧ NoDup (invoked (the_world (example_run Test_js))).*1.
Proof.
  assert (H1 : wf_listings (fs example_world)) by exact example_fs_wf.
  assert (H2 : invoked example_world = []) by reflexivity.
  assert (H3 : requests example_world = []) by reflexivity.
  assert (H4 : rtc (step ["node_modules"] Test_js) (start "/w" example_world)
                   (example_run Test_js)) by apply run_fifo_reachable.
  do 4 (split; [done|]).
  destruct (each_path_submitted_at_most_once _ _ _ _ _ H1 H2 H3 H4)
    as (Ha & Hb & Hc & _).
  by repeat split.
Defined.
(** ** Failures stay where they happen *)

Lemma write_back_written v filePath C R w content r :
  fs w !! filePath = Some (File content r true) →
  fs (write_back v filePath C R w)
  = <[filePath := File (updatedContent v C R) r true]> (fs w)
  ∧ last (console (write_back v filePath C R w))
    = Some (LogDocumentationAdded filePath).
Proof.
  intros Hw. unfold write_back.
  set (w1 := match v with index_js => _ | _ => w end).
  assert (Hw1 : fs w1 = fs w).
  { subst w1. destruct v; [|done..].
    by destruct (bool_decide (2 < length (split LF R))). }
  unfold writeFileSync_prim. rewrite Hw1, Hw. cbn. by rewrite last_snoc.
Qed.

Lemma write_back_refused v filePath C R w content r :
  fs w !! filePath = Some (File content r false) →
  fs (write_back v filePath C R w) = fs w
  ∧ last (console (write_back v filePath C R w))
    = Some (ErrorProcessing filePath (EACCES filePath)).
Proof.
  intros Hw. unfold write_back.
  set (w1 := match v with index_js => _ | _ => w end).
  assert (Hw1 : fs w1 = fs w).
  { subst w1. destruct v; [|done..].
    by destruct (bool_decide (2 < length (split LF R))). }
  unfold writeFileSync_prim. rewrite Hw1, Hw. cbn. by rewrite last_snoc.
Qed.

(** The annotate operation in closed form. *)
Lemma annotate_closed v filePath reply w :
  (∃ e, (∀ C wr, fs w !! filePath ≠ Some (File C true wr))
        ∧ annotate v filePath reply w
          = (Finished tt, add_console (ErrorProcessing filePath e) w))
  ∨ (∃ C wr,
       fs w !! filePath = Some (File C true wr)
       ∧ annotate v filePath reply w
         = (Finished tt,
            let w1 := add_request filePath (make_prompt C) w in
            match reply with
            | Throws e => add_console (ErrorProcessing filePath e) w1
            | Returns R => write_back v filePath C R w1
            end)).
Proof.
  unfold annotate.
  destruct (exec_addDocumentation v filePath w)
    as [(e & -> & Hno)|(C & wr & k & Hfile & -> & Hthrow & Hret)].
  - left. by exists e.
  - right. exists C, wr. split; [done|].
    destruct reply as [R|e]; [by rewrite Hret|by rewrite Hthrow].
Qed.

(** C7. A failure of an annotate operation, be it of the read, of the
    backend call or of the write, is caught and logged with the path of
    the file: the operation returns normally.  No run is ever ended by an
    exception, every pending task can take its turn, and a turn leaves
    the other tasks pending.  So when the backend fails for one file, the
    continuation waiting for a sibling still runs and rewrites that
    file. *)
Theorem annotate_failures_are_contained :
  (∀ v filePath reply w, ∃ w',
     annotate v filePath reply w = (Finished tt, w')
     ∧ ((∀ C wr, fs w !! filePath ≠ Some (File C true wr)) →
        ∃ e, w' = add_console (ErrorProcessing filePath e) w)
     ∧ (∀ C wr e, fs w !! filePath = Some (File C true wr) →
                  reply = Throws e →
        w' = add_console (ErrorProcessing filePath e)
               (add_request filePath (make_prompt C) w))
     ∧ (∀ C R, fs w !! filePath = Some (File C true false) →
               reply = Returns R →
        fs w' = fs w
        ∧ last (console w')
          = Some (ErrorProcessing filePath (EACCES filePath))))
  ∧ (∀ ignorePatterns v cwd w s,
       rtc (step ignorePatterns v) (start cwd w) s →
       crashed s = None
       ∧ ∀ i t (reply : outcome string), pending s !! i = Some t →
           ∃ s', fire ignorePatterns v i reply s = Some s'
                 ∧ step ignorePatterns v s s')
  ∧ (∀ ignorePatterns v i reply s s',
       fire ignorePatterns v i reply s = Some s' →
       ∃ new, pending s' = delete i (pending s) ++ new)
  ∧ (∀ ignorePatterns v s i j A B promptA promptB kA kB wA wA' wB wB'
       CB wrB content r e R,
       crashed s = None → i ≠ j →
       pending s !! i = Some (Continuation promptA kA) →
       exec (addDocumentation v A) wA = (Blocked promptA kA, wA', []) →
       pending s !! j = Some (Continuation promptB kB) →
       exec (addDocumentation v B) wB = (Blocked promptB kB, wB', []) →
       fs wB !! B = Some (File CB true wrB) →
       fs (the_world s) !! B = Some (File content r true) →
       ∃ s1 s2,
         step ignorePatterns v s s1
         ∧ the_world s1 = add_console (ErrorProcessing A e) (the_world s)
         ∧ step ignorePatterns v s1 s2
         ∧ crashed s2 = None
         ∧ fs (the_world s2)
           = <[B := File (updatedContent v CB R) r true]> (fs (the_world s))
         ∧ last (console (the_world s2)) = Some (LogDocumentationAdded B)).
Proof.
  split; [|split; [|split]].
  - intros v filePath reply w.
    destruct (annotate_closed v filePath reply w)
      as [(e & Hno & ->)|(C & wr & Hfile & ->)]; eexists; (split; [done|]).
    + split; [by exists e|]. split.
      * intros C wr e' Hfile. by destruct (Hno C wr).
      * intros C R Hfile. by destruct (Hno C false).
    + split; [intros Hno; by destruct (Hno C wr)|]. split.
      * intros C' wr' e Hfile' ->. cbn zeta. congruence.
      * intros C' R Hfile' ->. cbn zeta.
        assert (C' = C ∧ wr = false) as [-> ->] by (split; congruence).
        by destruct (write_back_refused v filePath C R
                       (add_request filePath (make_prompt C) w) C true Hfile).
  - intros ignorePatterns v cwd w s Hrun.
    destruct (run_invariant ignorePatterns v cwd (λ _, True) w)
      with (s := s) as [[Hc _] _]; [done..|].
    split; [done|]. intros i t reply Ht.
    assert (Hfire : ∃ s', fire ignorePatterns v i reply s = Some s').
    { unfold fire. rewrite Ht. by eexists. }
    destruct Hfire as [s' Hfire]. exists s'. split; [done|].
    by apply (step_fire _ _ i reply).
  - intros ignorePatterns v i reply s s' Hfire. unfold fire in Hfire.
    destruct (pending s !! i) as [t|]; [|done]. injection Hfire as <-.
    destruct (exec _ _) as [[[[]|e|prompt k] w'] cs]; cbn; by eexists.
  - intros ignorePatterns v s i j A B promptA promptB kA kB wA wA' wB wB'
      CB wrB content r e R Hc Hij HA HkA HB HkB HfileB Hcontent.
    destruct (exec_addDocumentation v A wA)
      as [(? & HeA & _)|(CA & ? & kA' & _ & HeA & HthrowA & _)];
      rewrite HkA in HeA; [done|]. injection HeA as _ <- _.
    destruct (exec_addDocumentation v B wB)
      as [(? & HeB & _)|(CB' & ? & kB' & HfileB' & HeB & _ & HretB)];
      rewrite HkB in HeB; [done|]. injection HeB as _ <- _.
    assert (CB' = CB) as -> by congruence.
    set (j' := if decide (j < i) then j else pred j).
    set (s1 := State (add_console (ErrorProcessing A e) (the_world s))
                     (delete i (pending s) ++ []) None (registered s ++ [])).
    assert (Hs1 : fire ignorePatterns v i (Throws e) s = Some s1).
    { unfold fire. rewrite HA. cbn [task_prog]. by rewrite HthrowA. }
    assert (HB1 : pending s1 !! j' = Some (Continuation promptB kB)).
    { cbn. rewrite app_nil_r. subst j'. destruct (decide (j < i)).
      - by rewrite list_lookup_delete_lt.
      - rewrite list_lookup_delete_ge by lia.
        by replace (S (pred j)) with j by lia. }
    destruct (write_back_written v B CB R (the_world s1) content r Hcontent)
      as [Hfs Hlast].
    exists s1,
      (State (write_back v B CB R (the_world s1))
             (delete j' (pending s1) ++ []) None (registered s1 ++ [])).
    split; [by apply (step_fire _ _ i (Throws e))|].
    split; [done|]. split.
    + apply (step_fire _ _ j' (Returns R)); [done|].
      unfold fire. rewrite HB1. cbn [task_prog]. by rewrite HretB.
    + cbn [crashed the_world]. by rewrite Hfs, Hlast.
Qed.

Lemma annotate_failures_are_contained_witness :
  rtc (step ["node_modules"] part_000) (start "/w" example_world)
      (example_run part_000)
  ∧ crashed (example_run part_000) = None
  ∧ fs (the_world example_waiting) !! "/w/b.ts" = Some (File "let b;" true true)
  ∧ ∃ s1 s2,
      step ["node_modules"] part_000 example_waiting s1
      ∧ the_world s1
        = add_console (ErrorProcessing "/w/a.js" (BackendError "down"))
                      (the_world example_waiting)
      ∧ step ["node_modules"] part_000 s1 s2
      ∧ crashed s2 = None
      ∧ fs (the_world s2)
        = <[ "/w/b.ts" := File (updatedContent part_000 "let b;" "A variable.")
                               true true]> (fs (the_world example_waiting))
      ∧ last (console (the_world s2)) = Some (LogDocumentationAdded "/w/b.ts").
Proof.
  assert (H1 : rtc (step ["node_modules"] part_000) (start "/w" example_world)
                   (example_run part_000)) by apply run_fifo_reachable.
  split; [exact H1|].
  split; [exact (proj1 (proj1 (proj2 annotate_failures_are_contained)
                          _ _ _ _ _ H1))|].
  split; [reflexivity|].
  eapply (proj2 (proj2 (proj2 annotate_failures_are_contained))
            ["node_modules"] part_000 example_waiting 2 3 "/w/a.js" "/w/b.ts"
            _ _ _ _ example_world _ example_world _ "let b;" true "let b;" true
            (BackendError "down") "A variable.");
    [reflexivity|lia|reflexivity..].
Defined.

(** The run of the example to its end: the backend fails for
    [/w/b.ts], its sibling [/w/a.js] is rewritten all the same. *)
Example sibling_rewritten_after_backend_error :
  let s := example_run part_000 in
  pending s = [] ∧ crashed s = None
  ∧ ErrorProcessing "/w/b.ts" (BackendError "quota exceeded")
    ∈ console (the_world s)
  ∧ fs (the_world s) !! "/w/b.ts" = Some (File "let b;" true true)
  ∧ fs (the_world s) !! "/w/a.js"
    = Some (File (comment_block five_lines "const a = 1;") true true).
Proof.
  cbn zeta. repeat split; try reflexivity.
  apply list_elem_of_In. vm_compute. tauto.
Qed.
(** * Further properties *)

(** ** Lines, once more *)

Lemma includes_cons_false (c : ascii) (s p : string) :
  includes (String c s) p = false → includes s p = false.
Proof. cbn [includes]. by intros [_ ?]%orb_false_iff. Qed.

Lemma prefix_nl_cons (c : ascii) (s : string) :
  String.prefix nl (String c s) = true ↔ c = LF.
Proof.
  rewrite prefix_true_iff. split.
  - intros [rest H]. by injection H.
  - intros ->. by exists s.
Qed.

Lemma single_line_cons (c : ascii) (s : string) :
  single_line (String c s) ↔ c ≠ LF ∧ single_line s.
Proof.
  unfold single_line. rewrite includes_cons, orb_false_iff.
  rewrite <- (prefix_nl_cons c s).
  destruct (String.prefix nl (String c s)); intuition congruence.
Qed.

Lemma split_single_line (s : string) :
  single_line s → split LF s = [s].
Proof.
  induction s as [|c s IH]; [done|].
  intros [Hc Hs]%single_line_cons. cbn [split].
  rewrite (IH Hs). by destruct (Ascii.eqb_spec c LF).
Qed.

(** Every line that [split] yields is free of line feeds. *)
Lemma split_lines_single (s : string) : Forall single_line (split LF s).
Proof.
  induction s as [|c s IH]; [by repeat constructor|].
  cbn [split]. destruct (split_cons_cases LF s) as (line & lines & Hs).
  rewrite Hs in *. apply Forall_cons in IH as [Hline Hlines].
  destruct (Ascii.eqb_spec c LF) as [->|Hc].
  - by repeat constructor.
  - constructor; [|done]. by apply single_line_cons.
Qed.

Lemma split_app_nl (line rest : string) :
  single_line line → split LF (line +:+ nl +:+ rest) = line :: split LF rest.
Proof.
  induction line as [|c line IH].
  - intros _. by change ("" +:+ nl +:+ rest) with (String LF rest).
  - intros [Hc Hline]%single_line_cons.
    rewrite app_cons_str. cbn [split]. rewrite (IH Hline).
    by destruct (Ascii.eqb_spec c LF).
Qed.

(** Splitting the join of lines gives the lines back. *)
Lemma split_join (lines : list string) :
  lines ≠ [] → Forall single_line lines → split LF (join nl lines) = lines.
Proof.
  induction lines as [|line [|line' lines] IH]; [done| |].
  - intros _ [Hline _]%Forall_cons. by apply split_single_line.
  - intros _ [Hline Hlines]%Forall_cons.
    change (join nl (line :: line' :: lines))
      with (line +:+ nl +:+ join nl (line' :: lines)).
    rewrite split_app_nl by done. by rewrite IH.
Qed.

Lemma join_app (l k : list string) :
  l ≠ [] → k ≠ [] → join nl (l ++ k) = join nl l +:+ nl +:+ join nl k.
Proof.
  induction l as [|x [|y l] IH]; [done| |]; intros _ Hk.
  - by destruct k.
  - change (join nl ((x :: y :: l) ++ k))
      with (x +:+ nl +:+ join nl ((y :: l) ++ k)).
    rewrite IH by done.
    change (join nl (x :: y :: l)) with (x +:+ nl +:+ join nl (y :: l)).
    by rewrite !app_assoc_str.
Qed.

Lemma updatedContent_part_of_reply (fileContent R : string) :
  substring_of (updatedContent index_js fileContent R) R
  ∧ (3 < length (split LF R) →
     ∃ first inner last1 last2,
       split LF R = first :: inner ++ [last1; last2]
       ∧ split LF (updatedContent index_js fileContent R) = inner).
Proof.
  unfold updatedContent. case_bool_decide as Hlen.
  - destruct (long_list_inner _ Hlen) as (first & inner & l1 & l2 & Hs).
    pose proof (split_lines_single R) as Hsingle.
    rewrite Hs in *. rewrite slice_inner. split.
    + rewrite <- (join_split R), Hs. destruct inner as [|x inner].
      * by exists "", (join nl [first; l1; l2]).
      * exists (first +:+ nl), (nl +:+ join nl [l1; l2]).
        change (first :: (x :: inner) ++ [l1; l2])
          with ([first] ++ ((x :: inner) ++ [l1; l2])).
        rewrite join_app, join_app by done. by rewrite !app_assoc_str.
    + intros Hlen3. exists first, inner, l1, l2. split; [done|].
      apply split_join.
      * intros ->. cbn in Hlen3. lia.
      * apply Forall_cons in Hsingle as [_ Hsingle].
        by apply Forall_app in Hsingle as [? _].
  - split; [|intros; lia]. rewrite join_split. exists "", "".
    by rewrite app_nil_r_str.
Qed.

(** X1. The replace policy of [src/index.js] writes a part of the reply
    and keeps its line structure: whatever the reply, the text written
    occurs in the reply as it is; for a reply of more than three lines,
    reading the file back and splitting it gives the lines between the
    first and the last two, so the file has three lines less than the
    reply. *)
Theorem replace_policy_writes_part_of_reply w filePath original R :
  fs w !! filePath = Some (File original true true) →
  ∃ written,
    fs (annotate index_js filePath (Returns R) w).2 !! filePath
    = Some (File written true true)
    ∧ substring_of written R
    ∧ (3 < length (split LF R) →
       ∃ first inner last1 last2,
         split LF R = first :: inner ++ [last1; last2]
         ∧ split LF written = inner
         ∧ length (split LF written) + 3 = length (split LF R)).
Proof.
  intros Hw. exists (updatedContent index_js original R).
  rewrite (annotate_index_js _ _ _ _ _ Hw). cbn zeta.
  destruct (updatedContent_part_of_reply original R) as [Hsub Hlines].
  split; [|split; [done|]].
  - cbn [snd fs add_console set_fs]. by rewrite lookup_insert_eq.
  - intros Hlen. destruct (Hlines Hlen) as (first & inner & l1 & l2 & Hs & Hi).
    exists first, inner, l1, l2. do 2 (split; [done|]).
    rewrite Hi, Hs. cbn. rewrite length_app. cbn. lia.
Qed.

Lemma replace_policy_writes_part_of_reply_witness :
  fs example_world !! "/w/a.js" = Some (File "const a = 1;" true true)
  ∧ ∃ written,
      fs (annotate index_js "/w/a.js" (Returns five_lines) example_world).2
        !! "/w/a.js" = Some (File written true true)
      ∧ substring_of written five_lines.
Proof.
  assert (H : fs example_world !! "/w/a.js"
              = Some (File "const a = 1;" true true)) by reflexivity.
  split; [exact H|].
  destruct (replace_policy_writes_part_of_reply example_world "/w/a.js"
              "const a = 1;" five_lines H) as (written & H1 & H2 & _).
  by exists written.
Defined.

(** ** The ignore filter, once more *)

Lemma trimStart_id (s : string) :
  (∀ c rest, s = String c rest → is_white_space c = false) → trimStart s = s.
Proof. destruct s as [|c s]; [done|]. intros H. cbn. by rewrite (H c s). Qed.

Lemma trimEnd_id (s : string) :
  (∀ init c, s = init +:+ String c "" → is_white_space c = false) →
  trimEnd s = s.
Proof.
  induction s as [|c s IH]; [done|]. intros H. cbn [trimEnd].
  rewrite IH.
  - destruct s as [|d s]; [|by rewrite andb_false_r].
    by rewrite (H "" c).
  - intros init d ->. apply (H (String c init) d). by rewrite app_cons_str.
Qed.

Lemma trim_idempotent (s : string) : trim (trim s) = trim s.
Proof.
  destruct (trim_spec s) as (_ & _ & _ & _ & _ & Hhead & Hlast).
  unfold trim at 1. rewrite (trimStart_id (trim s)) by done.
  by apply trimEnd_id.
Qed.

Lemma substring_of_trans (a b c : string) :
  substring_of a b → substring_of b c → substring_of a c.
Proof.
  intros (x & y & ->) (x' & y' & ->). exists (x' +:+ x), (y +:+ y').
  by rewrite !app_assoc_str.
Qed.

Lemma single_line_substring (a b : string) :
  substring_of a b → single_line b → single_line a.
Proof.
  unfold single_line. intros Hab Hb.
  destruct (includes a nl) eqn:Ha; [|done].
  apply includes_true_iff in Ha.
  assert (includes b nl = true); [|congruence].
  apply includes_true_iff. by eapply substring_of_trans.
Qed.

(** X2. Every pattern loaded from a readable configuration file is the
    trimmed form of one of its lines, is not empty, holds no line feed,
    has no white space at either end and does not start with [#]: a blank
    line never becomes the empty pattern, which would match every path. *)
Theorem loaded_patterns_well_formed w text writable :
  fs w !! IGNORE_CONFIG_FILE = Some (File text true writable) →
  ∃ ignorePatterns,
    exec load_ignorePatterns w = (Finished ignorePatterns, w, [])
    ∧ (∀ pattern, pattern ∈ ignorePatterns →
         (∃ line, line ∈ split LF text ∧ pattern = trim line)
         ∧ pattern ≠ "" ∧ single_line pattern ∧ trim pattern = pattern
         ∧ startsWith pattern "#" = false)
    ∧ ∀ filePath, shouldIgnore [""] filePath = true.
Proof.
  intros Hw. exists (spec_patterns text). split; [by eapply load_present|].
  split.
  - intros pattern Hin. unfold spec_patterns in Hin.
    apply list_elem_of_In, in_map_iff in Hin as (line & <- & Hin).
    apply list_elem_of_In, list_elem_of_filter in Hin as [[Hne Hhash] Hin].
    split; [by exists line|]. split; [done|].
    split; [|split; [apply trim_idempotent|done]].
    destruct (trim_spec line) as (before & after & Hline & _).
    apply (single_line_substring _ line); [by exists before, after|].
    by apply (proj1 (Forall_forall _ _) (split_lines_single text)).
  - intros filePath. cbn. rewrite orb_false_r.
    apply includes_true_iff. by exists "", filePath.
Qed.

Lemma loaded_patterns_well_formed_witness :
  fs configured_world !! IGNORE_CONFIG_FILE
  = Some (File example_config true true)
  ∧ ∃ ignorePatterns,
      exec load_ignorePatterns configured_world
      = (Finished ignorePatterns, configured_world, [])
      ∧ ∀ pattern, pattern ∈ ignorePatterns → pattern ≠ "".
Proof.
  assert (H : fs configured_world !! IGNORE_CONFIG_FILE
              = Some (File example_config true true)) by reflexivity.
  split; [exact H|].
  destruct (loaded_patterns_well_formed configured_world example_config true H)
    as (ignorePatterns & Hload & Hall & _).
  exists ignorePatterns. split; [exact Hload|].
  intros pattern Hin. exact (proj1 (proj2 (Hall pattern Hin))).
Defined.

(** X3. The script has no handler around the read of the configuration
    file: it ends with an exception before the walk starts exactly when
    the file is there and cannot be read, being a directory or
    unreadable; in every other case the walk starts with one pending
    call of [fs.readdir] for the working directory. *)
Theorem main_aborts_iff_config_unreadable cwd w :
  (main cwd w = None
   ↔ (∃ l, fs w !! IGNORE_CONFIG_FILE = Some (Dir l))
     ∨ (∃ text writable,
          fs w !! IGNORE_CONFIG_FILE = Some (File text false writable)))
  ∧ (∀ ignorePatterns s,
       main cwd w = Some (ignorePatterns, s) →
       pending s = [Callback (ReaddirCb cwd)] ∧ crashed s = None
       ∧ the_world s = add_console LogRunning w).
Proof.
  unfold main. rewrite exec_bind_log. cbn. unfold existsSync_prim. cbn.
  destruct (fs w !! IGNORE_CONFIG_FILE) as [[l|text [|] writable]|] eqn:Hw.
  - rewrite bool_decide_eq_true_2 by done. cbn.
    unfold readFileSync_prim. cbn. rewrite Hw. cbn.
    split; [|done]. split; [by left; exists l|done].
  - rewrite bool_decide_eq_true_2 by done. cbn.
    unfold readFileSync_prim. cbn. rewrite Hw. cbn.
    split; [|by intros ?? [= <- <-]].
    split; [done|]. by intros [[? ?]|(? & ? & ?)].
  - rewrite bool_decide_eq_true_2 by done. cbn.
    unfold readFileSync_prim. cbn. rewrite Hw. cbn.
    split; [|done]. split; [by right; exists text, writable|done].
  - rewrite bool_decide_eq_false_2 by (by intros [? ?]). cbn.
    split; [|by intros ?? [= <- <-]].
    split; [done|]. by intros [[? ?]|(? & ? & ?)].
Qed.

Lemma main_aborts_iff_config_unreadable_witness :
  fs broken_config_world !! IGNORE_CONFIG_FILE = Some (Dir (Some []))
  ∧ main "/w" broken_config_world = None.
Proof.
  assert (H : fs broken_config_world !! IGNORE_CONFIG_FILE
              = Some (Dir (Some []))) by reflexivity.
  split; [exact H|].
  exact (proj2 (proj1 (main_aborts_iff_config_unreadable "/w"
                         broken_config_world))
           (or_introl (ex_intro _ (Some []) H))).
Defined.

Lemma substring_of_path_join (pattern dir file : string) :
  substring_of pattern dir → substring_of pattern (path_join dir file).
Proof.
  intros (a & b & Hdir). unfold path_join.
  destruct (dir_prefix_root_or_self dir) as [[Hroot ->]|[_ ->]].
  - exists a, (b +:+ file). rewrite Hroot in Hdir.
    change ("" +:+ "/" +:+ file) with ("/" +:+ file).
    by rewrite Hdir, !app_assoc_str.
  - exists a, (b +:+ "/" +:+ file). by rewrite Hdir, !app_assoc_str.
Qed.

Lemma shouldIgnore_path_join ignorePatterns dir file :
  shouldIgnore ignorePatterns dir = true →
  shouldIgnore ignorePatterns (path_join dir file) = true.
Proof.
  unfold shouldIgnore. rewrite !existsb_exists.
  intros (pattern & Hin & Hdir). exists pattern. split; [done|].
  apply includes_true_iff, substring_of_path_join.
  by apply includes_true_iff.
Qed.

(** X4. The filter is inherited downwards: when [shouldIgnore] rejects a
    directory, it rejects every path that [path.join] builds below it,
    at any depth.  So skipping an ignored directory skips nothing the
    filter would have let through. *)
Theorem ignored_directory_covers_subtree ignorePatterns dir names :
  shouldIgnore ignorePatterns dir = true →
  shouldIgnore ignorePatterns (foldl path_join dir names) = true.
Proof.
  revert dir. induction names as [|file names IH]; intros dir Hdir; [done|].
  cbn. by apply IH, shouldIgnore_path_join.
Qed.

Lemma ignored_directory_covers_subtree_witness :
  shouldIgnore ["node_modules"] "/w/node_modules" = true
  ∧ shouldIgnore ["node_modules"]
      (foldl path_join "/w/node_modules" ["lib"; "index.js"]) = true.
Proof.
  assert (H : shouldIgnore ["node_modules"] "/w/node_modules" = true)
    by reflexivity.
  split; [exact H|].
  exact (ignored_directory_covers_subtree _ _ ["lib"; "index.js"] H).
Defined.

(** ** Turns in closed form *)

Section Turns.
Variable ignorePatterns : list string.
Variable v : variant.

Lemma exec_readdir_cb dir reply w :
  exec (task_prog ignorePatterns v (Callback (ReaddirCb dir)) reply) w
  = match fs w !! dir with
    | Some (Dir (Some files)) =>
        (Finished tt, w, stat_calls ignorePatterns dir files)
    | Some (Dir None) =>
        (Finished tt, add_console (ErrorReadingDirectory dir (EACCES dir)) w, [])
    | Some (File _ _ _) =>
        (Finished tt, add_console (ErrorReadingDirectory dir (ENOTDIR dir)) w, [])
    | None =>
        (Finished tt, add_console (ErrorReadingDirectory dir (ENOENT dir)) w, [])
    end.
Proof.
  cbn [task_prog exec]. unfold readdir_prim.
  destruct (fs w !! dir) as [[[files|]|content r wr]|]; try done.
  cbn [readdir_callback]. apply exec_forEach_stat.
Qed.

Lemma exec_stat_cb filePath file reply w :
  exec (task_prog ignorePatterns v (Callback (StatCb filePath file)) reply) w
  = match fs w !! filePath with
    | Some (Dir _) => (Finished tt, w, [ReaddirCb filePath])
    | Some (File _ _ _) =>
        if endsWith file ".js" || endsWith file ".ts"
        then exec (addDocumentation v filePath) (add_invoked filePath file w)
        else (Finished tt, w, [])
    | None =>
        (Finished tt,
         add_console (ErrorReadingFileStats filePath (ENOENT filePath)) w, [])
    end.
Proof.
  cbn [task_prog exec]. unfold stat_prim.
  destruct (fs w !! filePath) as [[l|content r wr]|]; try done.
  cbn [stat_callback isDirectory].
  by destruct (endsWith file ".js" || endsWith file ".ts").
Qed.


(** Induction over the turns of a run. *)
Lemma run_induction (P : state → Prop) cwd w :
  P (start cwd w) →
  (∀ s i t reply,
     rtc (step ignorePatterns v) (start cwd w) s → P s →
     crashed s = None → pending s !! i = Some t →
     P (settle (exec (task_prog ignorePatterns v t reply) (the_world s))
               (delete i (pending s)) (registered s))) →
  ∀ s, rtc (step ignorePatterns v) (start cwd w) s → P s.
Proof.
  intros Hstart Hkeep. apply rtc_ind_r; [done|].
  intros s1 s2 Hrun Hstep HP. destruct Hstep as [i reply s s' Hc Hfire].
  unfold fire in Hfire.
  destruct (pending s !! i) as [t|] eqn:Ht; [|done].
  injection Hfire as <-. by apply Hkeep.
Qed.

End Turns.

Lemma stat_calls_all_ignored ignorePatterns dir files :
  shouldIgnore ignorePatterns dir = true →
  stat_calls ignorePatterns dir files = [].
Proof.
  intros Hdir. unfold stat_calls.
  induction files as [|file files IH]; [done|].
  rewrite filter_cons, decide_False; [done|].
  by rewrite (shouldIgnore_path_join _ _ _ Hdir).
Qed.

(** X5. The directory the walk starts in is not tested against the
    patterns, but its path is part of every path below it: when a
    pattern occurs in the working directory's own path, every entry is
    skipped.  The run then consists of the one listing of that directory
    and changes no file, calls no annotator and sends no request. *)
Theorem ignored_cwd_processes_nothing ignorePatterns v cwd w s :
  shouldIgnore ignorePatterns cwd = true →
  rtc (step ignorePatterns v) (start cwd w) s →
  registered s = [ReaddirCb cwd]
  ∧ fs (the_world s) = fs w
  ∧ invoked (the_world s) = invoked w
  ∧ requests (the_world s) = requests w
  ∧ crashed s = None
  ∧ (s = start cwd w ∨ pending s = []).
Proof.
  intros Hcwd. revert s.
  apply (run_induction ignorePatterns v
           (λ s, registered s = [ReaddirCb cwd]
                 ∧ fs (the_world s) = fs w
                 ∧ invoked (the_world s) = invoked w
                 ∧ requests (the_world s) = requests w
                 ∧ crashed s = None
                 ∧ (s = start cwd w ∨ pending s = []))).
  - repeat split; try done. by left.
  - intros s i t reply _ (Hreg & Hfs & Hinv & Hreq & _ & [->|Hnil]) _ Ht.
    + destruct i as [|i]; [|done]. injection Ht as <-.
      rewrite exec_readdir_cb.
      change (the_world (start cwd w)) with w.
      change (registered (start cwd w)) with [ReaddirCb cwd].
      destruct (fs w !! cwd) as [[[files|]|content r wr]|];
        rewrite ?stat_calls_all_ignored by done;
        (split; [done|]); (split; [done|]); (split; [done|]);
        (split; [done|]); (split; [done|]); by right.
    + by rewrite Hnil in Ht.
Qed.

Lemma ignored_cwd_processes_nothing_witness :
  shouldIgnore ["w"] "/w" = true
  ∧ rtc (step ["w"] index_js) (start "/w" example_world)
        (run_fifo ["w"] index_js example_backend 20 (start "/w" example_world))
  ∧ fs (the_world (run_fifo ["w"] index_js example_backend 20
                     (start "/w" example_world)))
    = fs example_world.
Proof.
  assert (H1 : shouldIgnore ["w"] "/w" = true) by reflexivity.
  assert (H2 : rtc (step ["w"] index_js) (start "/w" example_world)
                 (run_fifo ["w"] index_js example_backend 20
                    (start "/w" example_world)))
    by apply run_fifo_reachable.
  split; [exact H1|]. split; [exact H2|].
  exact (proj1 (proj2 (ignored_cwd_processes_nothing _ _ _ _ _ H1 H2))).
Defined.

(** ** The books of a run *)

Lemma settle_pending h w cs rest reg :
  pending (settle (h, w, cs) rest reg)
  = rest ++ (Callback <$> cs)
         ++ match h with
            | Blocked prompt k => [Continuation prompt k]
            | _ => []
            end.
Proof. destruct h; cbn; by rewrite ?app_nil_r. Qed.

Lemma waiting_app (l k : list task) : waiting (l ++ k) = waiting l + waiting k.
Proof. unfold waiting. by rewrite filter_app, length_app. Qed.

Lemma waiting_callbacks (cs : list callback) : waiting (Callback <$> cs) = 0.
Proof. induction cs as [|c cs IH]; [done|]. exact IH. Qed.

Lemma waiting_delete (l : list task) (i : nat) (t : task) :
  l !! i = Some t →
  waiting l = (if is_waiting t then 1 else 0) + waiting (delete i l).
Proof.
  intros Ht. unfold waiting.
  rewrite (Permutation_length
             (filter_Permutation (λ t, is_waiting t = true) _ _
                (delete_Permutation _ _ _ Ht))).
  rewrite filter_cons. by destruct t.
Qed.

Lemma outcomes_app (l k : list console_entry) :
  outcomes (l ++ k) = outcomes l + outcomes k.
Proof. unfold outcomes. by rewrite filter_app, length_app. Qed.

Lemma outcomes_snoc (l : list console_entry) (e : console_entry) :
  outcomes (l ++ [e]) = outcomes l + (if is_outcome e then 1 else 0).
Proof. rewrite outcomes_app. f_equal. by destruct e. Qed.

Lemma waiting_nil : waiting [] = 0.
Proof. done. Qed.

Lemma waiting_continuation prompt k : waiting [Continuation prompt k] = 1.
Proof. done. Qed.

Ltac count_turn :=
  cbn [console add_console add_invoked add_request the_world settle pending
       is_waiting length];
  rewrite ?settle_world, ?app_nil_r, ?waiting_app, ?waiting_callbacks,
    ?outcomes_snoc, ?waiting_nil, ?waiting_continuation;
  cbn [is_outcome length]; lia.

Lemma tracked_mono v w0 w w' t :
  (∀ p, p ∈ (invoked w).*1 → p ∈ (invoked w').*1) →
  tracked v w0 w t → tracked v w0 w' t.
Proof.
  intros Hsub. destruct t as [c|prompt k]; [done|].
  intros (p & C & ? & ? & ? & ?). exists p, C. by auto.
Qed.

(** A turn that leaves the file system as it is. *)
Lemma ledger_same_fs v w0 s s' i t extra new :
  ledger v w0 s → pending s !! i = Some t →
  fs (the_world s') = fs (the_world s) →
  invoked (the_world s') = invoked (the_world s) ++ extra →
  pending s' = delete i (pending s) ++ new →
  Forall (tracked v w0 (the_world s')) new →
  outcomes (console (the_world s')) + waiting new
  = outcomes (console (the_world s)) + (if is_waiting t then 1 else 0)
    + length extra →
  ledger v w0 s'.
Proof.
  intros (HK & HU & HW & HS & HT & HA) Ht Hfs Hinv Hpend Hnew Hcount.
  assert (Hsub : ∀ p, p ∈ (invoked (the_world s)).*1 →
                      p ∈ (invoked (the_world s')).*1).
  { intros p Hp. rewrite Hinv, fmap_app. apply elem_of_app. by left. }
  unfold ledger. rewrite Hfs, Hpend. split; [done|].
  split; [|split; [done|split; [done|]]].
  - intros p Hp. apply HU. by intros ?%Hsub.
  - split.
    + apply Forall_app. split; [|done]. apply Forall_delete.
      eapply Forall_impl; [exact HT|]. intros t'. by apply tracked_mono.
    + rewrite waiting_app, Hinv, length_app.
      rewrite (waiting_delete _ _ _ Ht) in HA. lia.
Qed.

Ltac same_fs extra :=
  eapply (ledger_same_fs _ _ _ _ _ _ extra);
  [eassumption|eassumption|rewrite settle_world; try eassumption; reflexivity
  |rewrite settle_world; try eassumption; cbn; by rewrite ?app_nil_r
  |apply settle_pending|rewrite ?settle_world
  |try match goal with H : outcomes _ = _ |- _ => rewrite ?settle_world, H end;
   count_turn].

Ltac callbacks_tracked :=
  apply Forall_app; split;
  [apply Forall_fmap, Forall_forall; by intros|by repeat constructor].

Lemma write_back_outcomes v filePath C R w :
  outcomes (console (write_back v filePath C R w)) = S (outcomes (console w)).
Proof.
  unfold write_back.
  set (w1 := match v with index_js => _ | _ => w end).
  assert (Hw1 : outcomes (console w1) = outcomes (console w)).
  { subst w1. destruct v; [|done..].
    destruct (bool_decide (2 < length (split LF R))); [done|].
    cbn [console add_console]. rewrite outcomes_snoc. cbn. lia. }
  destruct (writeFileSync_prim filePath (updatedContent v C R) w1)
    as [[[]|e] w2] eqn:Hwrite;
    apply writeFileSync_prim_frame in Hwrite as (_ & _ & Hcons & _);
    cbn [console add_console]; rewrite outcomes_snoc, Hcons, Hw1; cbn; lia.
Qed.

Lemma comment_block_suffix (R C : string) :
  ∃ pre, comment_block R C = pre +:+ C.
Proof.
  exists ("/*" +:+ nl +:+ R +:+ nl +:+ "*/" +:+ nl +:+ nl).
  unfold comment_block. by rewrite !app_assoc_str.
Qed.

Section Ledger.
Variable ignorePatterns : list string.
Variable v : variant.
Variable cwd : string.
Variable w0 : world.
Hypothesis Hfresh : invoked w0 = [].

Lemma ledger_start : ledger v w0 (start cwd w0).
Proof.
  unfold ledger. cbn [start settle exec processFilesRecursively the_world pending].
  rewrite Hfresh. split; [|split; [done|split; [done|split; [|split]]]].
  - intros p. by destruct (fs w0 !! p) as [[l|C r wr]|].
  - intros _ p C0 r wr Hp. exists C0. split; [done|]. by exists "".
  - by repeat constructor.
  - rewrite app_nil_l, waiting_callbacks. cbn [length]. lia.
Qed.

Lemma ledger_turn s i t reply :
  ledger v w0 s → pending s !! i = Some t →
  ledger v w0
    (settle (exec (task_prog ignorePatterns v t reply) (the_world s))
            (delete i (pending s)) (registered s)).
Proof.
  intros Hled Ht.
  pose proof Hled as (HK & HU & HW & HS & HT & HA).
  destruct t as [[dir|filePath file]|prompt k].
  - (* the callback of fs.readdir *)
    rewrite exec_readdir_cb.
    destruct (fs (the_world s) !! dir) as [[[files|]|content r wr]|];
      same_fs (@nil (string * string)); callbacks_tracked.
  - (* the callback of fs.stat *)
    rewrite exec_stat_cb.
    destruct (fs (the_world s) !! filePath) as [[l|content r wr]|] eqn:Hlook.
    + same_fs (@nil (string * string)). callbacks_tracked.
    + destruct (endsWith file ".js" || endsWith file ".ts").
      * destruct (exec_addDocumentation v filePath
                    (add_invoked filePath file (the_world s)))
          as [(e & -> & _)|(C & wr' & k & Hfile & -> & Hk)].
        -- same_fs [(filePath, file)]. callbacks_tracked.
        -- cbn in Hfile. rewrite Hlook in Hfile. injection Hfile as -> -> ->.
           same_fs [(filePath, file)].
           constructor; [|constructor].
           exists filePath, C. do 2 (split; [done|]). split.
           { cbn. rewrite fmap_app. apply elem_of_app. right. by left. }
           specialize (HK filePath). rewrite Hlook in HK.
           destruct (fs w0 !! filePath) as [[l|C0 r0 wr0]|] eqn:H0; try done.
           destruct HK as [-> ->]. exists C0, wr'. split; [done|].
           intros Hv. destruct (HS Hv _ _ _ _ H0) as (C' & HC' & Hpre).
           rewrite Hlook in HC'. by injection HC' as <-.
      * same_fs (@nil (string * string)). callbacks_tracked.
    + same_fs (@nil (string * string)). callbacks_tracked.
  - (* a continuation *)
    pose proof (proj1 (Forall_forall _ _) HT _ (list_elem_of_lookup_2 _ _ _ Ht))
      as (p & C & [Hthrow Hret] & -> & Hp & C0 & wr & H0 & Hsuf).
    cbn [task_prog]. destruct reply as [R|e].
    2: { rewrite Hthrow. same_fs (@nil (string * string)). callbacks_tracked. }
    rewrite Hret.
    pose proof (HK p) as HKp. rewrite H0 in HKp.
    destruct (fs (the_world s) !! p) as [[l|c r' wr']|] eqn:Hlook; try done.
    destruct HKp as [<- <-].
    destruct (write_back_frame v p C R (the_world s)) as (Hinv & Hreq & _).
    pose proof (write_back_outcomes v p C R (the_world s)) as Hout.
    destruct wr.
    2: { destruct (write_back_refused v p C R _ _ _ Hlook) as [Hfs _].
         same_fs (@nil (string * string)). callbacks_tracked. }
    destruct (write_back_written v p C R _ _ _ Hlook) as [Hfs _].
    unfold ledger. cbn [settle the_world pending]. rewrite Hfs, Hinv, Hout.
    rewrite app_nil_r. split; [|split; [|split; [|split; [|split]]]].
    + intros q. destruct (decide (p = q)) as [<-|Hne].
      * by rewrite lookup_insert_eq, H0.
      * by rewrite lookup_insert_ne.
    + intros q Hq. rewrite lookup_insert_ne; [by apply HU|]. by intros ->.
    + intros q Hq. rewrite lookup_insert_ne; [by apply HW|].
      intros <-. by destruct (Hq C0).
    + intros Hv q C1 r1 wr1 H1. destruct (decide (p = q)) as [<-|Hne].
      * rewrite lookup_insert_eq. rewrite H0 in H1. injection H1 as <- <- <-.
        eexists. split; [done|].
        destruct (Hsuf Hv) as [pre ->].
        assert (updatedContent v (pre +:+ C0) R
                = comment_block R (pre +:+ C0)) as -> by by destruct v.
        destruct (comment_block_suffix R (pre +:+ C0)) as [pre' ->].
        exists (pre' +:+ pre). by rewrite app_assoc_str.
      * rewrite lookup_insert_ne by done. by apply HS.
    + apply Forall_delete. eapply Forall_impl; [exact HT|].
      intros t'. apply tracked_mono. by rewrite Hinv.
    + rewrite (waiting_delete _ _ _ Ht) in HA. cbn in HA. lia.
Qed.

Lemma ledger_run s :
  rtc (step ignorePatterns v) (start cwd w0) s → ledger v w0 s.
Proof.
  apply run_induction; [apply ledger_start|].
  intros s' i t reply _ Hled _ Ht. by apply ledger_turn.
Qed.

End Ledger.



(** X7. The prepend copies never lose what a file held: in every state
    of a run of [src/tests/Test.js] or of the third copy, a file that was
    there at the start still ends with its content of the start, and has
    its permissions of the start. *)
Theorem prepend_run_keeps_original ignorePatterns v cwd w s p original r wr :
  v = Test_js ∨ v = part_000 →
  invoked w = [] →
  rtc (step ignorePatterns v) (start cwd w) s →
  fs w !! p = Some (File original r wr) →
  ∃ content before,
    fs (the_world s) !! p = Some (File content r wr)
    ∧ content = before +:+ original.
Proof.
  intros Hv Hw Hrun Hp.
  destruct (ledger_run ignorePatterns v cwd w Hw s Hrun)
    as (_ & _ & _ & HS & _).
  destruct (HS (ltac:(by destruct Hv as [-> | ->])) _ _ _ _ Hp)
    as (content & Hcontent & before & ->).
  by exists (before +:+ original), before.
Qed.

Lemma prepend_run_keeps_original_witness :
  invoked example_world = []
  ∧ rtc (step ["node_modules"] Test_js) (start "/w" example_world)
        (example_run Test_js)
  ∧ fs example_world !! "/w/a.js" = Some (File "const a = 1;" true true)
  ∧ ∃ content before,
      fs (the_world (example_run Test_js)) !! "/w/a.js"
      = Some (File content true true)
      ∧ content = before +:+ "const a = 1;".
Proof.
  assert (H1 : invoked example_world = []) by reflexivity.
  assert (H2 : rtc (step ["node_modules"] Test_js) (start "/w" example_world)
                   (example_run Test_js)) by apply run_fifo_reachable.
  assert (H3 : fs example_world !! "/w/a.js"
               = Some (File "const a = 1;" true true)) by reflexivity.
  split; [exact H1|]. split; [exact H2|]. split; [exact H3|].
  exact (prepend_run_keeps_original _ _ _ _ _ _ _ _ _ (or_introl eq_refl)
           H1 H2 H3).
Defined.

(** X8. Every call of the annotator is accounted for on the console:
    at any time the calls made are as many as the lines that report an
    outcome (documentation added, or error processing) plus the calls
    still waiting for the backend; when nothing is pending, each call has
    produced exactly one such line. *)
Theorem every_call_reports_once ignorePatterns v cwd w s :
  invoked w = [] →
  rtc (step ignorePatterns v) (start cwd w) s →
  outcomes (console (the_world s)) + waiting (pending s)
  = outcomes (console w) + length (invoked (the_world s))
  ∧ (pending s = [] →
     outcomes (console (the_world s))
     = outcomes (console w) + length (invoked (the_world s))).
Proof.
  intros Hw Hrun.
  destruct (ledger_run ignorePatterns v cwd w Hw s Hrun)
    as (_ & _ & _ & _ & _ & HA).
  split; [done|]. intros Hnil. rewrite Hnil in HA. cbn in HA. lia.
Qed.

Lemma every_call_reports_once_witness :
  invoked example_world = []
  ∧ rtc (step ["node_modules"] index_js) (start "/w" example_world)
        (example_run index_js)
  ∧ pending (example_run index_js) = []
  ∧ outcomes (console (the_world (example_run index_js)))
    = outcomes (console example_world)
      + length (invoked (the_world (example_run index_js))).
Proof.
  assert (H1 : invoked example_world = []) by reflexivity.
  assert (H2 : rtc (step ["node_modules"] index_js) (start "/w" example_world)
                   (example_run index_js)) by apply run_fifo_reachable.
  assert (H3 : pending (example_run index_js) = []) by reflexivity.
  split; [exact H1|]. split; [exact H2|]. split; [exact H3|].
  exact (proj2 (every_call_reports_once _ _ _ _ _ H1 H2) H3).
Defined.

(** ** What the backend is asked *)


Lemma safe_run ignorePatterns v cwd w s :
  rtc (step ignorePatterns v) (start cwd w) s → safe ignorePatterns s.
Proof.
  intros Hrun.
  by destruct (run_invariant ignorePatterns v cwd (λ _, True) w) with (s := s).
Qed.





(** ** The length of a run *)

Lemma weight_app (l k : list task) : weight (l ++ k) = weight l + weight k.
Proof. apply sum_list_with_app. Qed.

Lemma weight_delete (l : list task) (i : nat) (t : task) :
  l !! i = Some t → weight l = task_weight t + weight (delete i l).
Proof.
  intros Ht. unfold weight.
  by rewrite (sum_list_with_Permutation_proper task_weight _ _
                (delete_Permutation _ _ _ Ht)).
Qed.

Lemma weight_stat_calls ignorePatterns dir files :
  weight (Callback <$> stat_calls ignorePatterns dir files)
  = 2 * length (visited (stat_calls ignorePatterns dir files)).
Proof.
  unfold stat_calls, visited, weight.
  induction (filter _ files) as [|file l IH]; [done|].
  cbn in IH |- *. rewrite IH. lia.
Qed.

(** A turn takes one unit of the budget: three units come in with every
    directory entry that is visited. *)
Lemma turn_spends ignorePatterns v s i t reply :
  task_ok ignorePatterns t → pending s !! i = Some t →
  1 + weight (pending (settle (exec (task_prog ignorePatterns v t reply)
                                    (the_world s))
                              (delete i (pending s)) (registered s)))
    + 3 * length (visited (registered s))
  ≤ weight (pending s)
    + 3 * length (visited (registered
                             (settle (exec (task_prog ignorePatterns v t reply)
                                           (the_world s))
                                     (delete i (pending s)) (registered s)))).
Proof.
  intros Hok Ht.
  destruct (exec_task_fired ignorePatterns v t reply (the_world s) Hok)
    as (h & w' & cs & -> & Hf).
  rewrite settle_pending, settle_registered, visited_app, length_app,
    !weight_app, (weight_delete _ _ _ Ht).
  inversion Hf; subst; cbn [task_weight]; rewrite ?weight_stat_calls;
    cbn; lia.
Qed.

Lemma turn_budget ignorePatterns v cwd w n s :
  nsteps (step ignorePatterns v) n (start cwd w) s →
  n + weight (pending s) ≤ 3 * length (visited (registered s)) + 1.
Proof.
  revert s. induction n as [|n IH]; intros s Hn.
  - inversion Hn; subst. cbn. lia.
  - apply nsteps_inv_r in Hn as (s1 & Hn & Hstep).
    specialize (IH s1 Hn).
    destruct (safe_run _ _ _ _ _ (rtc_nsteps_2 _ _ _ Hn)) as [_ Hok].
    destruct Hstep as [i reply s s' _ Hfire]. unfold fire in Hfire.
    destruct (pending s !! i) as [t|] eqn:Ht; [|done].
    injection Hfire as <-.
    pose proof (turn_spends ignorePatterns v s i t reply
                  (proj1 (Forall_forall _ _) Hok _
                     (list_elem_of_lookup_2 _ _ _ Ht)) Ht).
    lia.
Qed.

Lemma elem_of_dir_entries (f : gmap string inode) dir files file :
  f !! dir = Some (Dir (Some files)) → file ∈ files →
  path_join dir file ∈ dir_entries f.
Proof.
  intros Hdir Hfile. unfold dir_entries. apply list_elem_of_bind.
  exists (dir, Dir (Some files)). split.
  - by apply list_elem_of_fmap_2.
  - by apply elem_of_map_to_list.
Qed.

(** The paths handed to [fs.stat] are directory entries of the file
    system of the start. *)
Lemma visited_are_entries ignorePatterns v cwd w s :
  invoked w = [] →
  rtc (step ignorePatterns v) (start cwd w) s →
  Forall (λ p, p ∈ dir_entries (fs w)) (visited (registered s)).
Proof.
  intros Hinv. revert s. apply run_induction; [constructor|].
  intros s i t reply Hrun HP _ Ht.
  destruct (exec (task_prog ignorePatterns v t reply) (the_world s))
    as [[h w'] cs] eqn:Hexec.
  rewrite settle_registered, visited_app. apply Forall_app. split; [done|].
  destruct t as [[dir|filePath file]|prompt k].
  - rewrite exec_readdir_cb in Hexec.
    destruct (fs (the_world s) !! dir) as [[[files|]|content r wr]|] eqn:Hlook;
      injection Hexec as <- <- <-; try constructor.
    rewrite visited_stat_calls, callback_path_stat_calls.
    apply Forall_fmap, Forall_forall.
    intros file [_ Hfile]%list_elem_of_filter.
    apply elem_of_dir_entries with files; [|done].
    destruct (ledger_run ignorePatterns v cwd w Hinv s Hrun) as (HK & _).
    specialize (HK dir). rewrite Hlook in HK.
    destruct (fs w !! dir) as [[l|]|]; try done. cbn in HK. by subst.
  - rewrite exec_stat_cb in Hexec.
    destruct (fs (the_world s) !! filePath) as [[l|content r wr]|];
      [by injection Hexec as <- <- <-| |by injection Hexec as <- <- <-].
    destruct (endsWith file ".js" || endsWith file ".ts");
      [|by injection Hexec as <- <- <-].
    destruct (exec_addDocumentation v filePath
                (add_invoked filePath file (the_world s)))
      as [(e & He & _)|(C & wr' & k & _ & He & _)];
      rewrite He in Hexec; by injection Hexec as <- <- <-.
  - destruct (safe_run _ _ _ _ _ Hrun) as [_ Hok].
    pose proof (proj1 (Forall_forall _ _) Hok _
                  (list_elem_of_lookup_2 _ _ _ Ht)) as Hk.
    destruct (Hk reply (the_world s)) as (w'' & Hexec' & _).
    cbn [task_prog] in Hexec. rewrite Hexec' in Hexec.
    by injection Hexec as <- <- <-.
Qed.

Lemma run_fifo_nsteps ignorePatterns v backend fuel s :
  ∃ n, nsteps (step ignorePatterns v) n s
              (run_fifo ignorePatterns v backend fuel s)
       ∧ (n = fuel
          ∨ crashed (run_fifo ignorePatterns v backend fuel s) ≠ None
          ∨ pending (run_fifo ignorePatterns v backend fuel s) = []).
Proof.
  revert s. induction fuel as [|fuel IH]; intros s.
  { exists 0. split; [constructor|by left]. }
  cbn [run_fifo]. destruct (crashed s) eqn:Hc.
  { exists 0. split; [constructor|]. right. left. by rewrite Hc. }
  destruct (pending s) as [|t rest] eqn:Hp.
  { exists 0. split; [constructor|]. by do 2 right. }
  match goal with |- context [fire _ _ 0 ?r s] =>
    destruct (fire ignorePatterns v 0 r s) as [s'|] eqn:Hfire;
      [|unfold fire in Hfire; by rewrite Hp in Hfire];
    destruct (IH s') as (n & Hsteps & Hn);
    exists (S n); split;
      [apply nsteps_l with s'; [by apply (step_fire _ _ 0 r)|done]|]
  end.
  destruct Hn as [->|[Hn|Hn]]; [by left|right; by left|by do 2 right].
Qed.

(** X10. Every run ends: in a tree with distinct entry names a run of
    [n] turns has [n] at most three times the number of directory
    entries of the file system, plus one, whatever the order of the
    callbacks and the replies.  Three turns is what an entry can take:
    its [fs.stat], and then the listing of a directory or the second half
    of an annotate operation. *)
Theorem run_length_bounded ignorePatterns v cwd w n s :
  wf_listings (fs w) → invoked w = [] → requests w = [] →
  nsteps (step ignorePatterns v) n (start cwd w) s →
  n + weight (pending s) ≤ 3 * length (dir_entries (fs w)) + 1.
Proof.
  intros Hwf Hinv Hreq Hn.
  pose proof (rtc_nsteps_2 _ _ _ Hn) as Hrun.
  pose proof (turn_budget _ _ _ _ _ _ Hn) as Hbudget.
  destruct (distinct_run ignorePatterns v cwd w s Hwf Hinv Hreq Hrun)
    as [_ (_ & _ & _ & Hnodup & _)].
  pose proof (visited_are_entries _ _ _ _ _ Hinv Hrun) as Hvis.
  assert (length (visited (registered s)) ≤ length (dir_entries (fs w))).
  { apply submseteq_length, NoDup_submseteq; [done|].
    intros p. apply (proj1 (Forall_forall _ _) Hvis). }
  lia.
Qed.

Lemma run_length_bounded_witness :
  wf_listings (fs example_world)
  ∧ invoked example_world = [] ∧ requests example_world = []
  ∧ ∃ n, nsteps (step ["node_modules"] index_js) n (start "/w" example_world)
                (example_run index_js)
         ∧ n + weight (pending (example_run index_js))
           ≤ 3 * length (dir_entries (fs example_world)) + 1.
Proof.
  assert (H1 : wf_listings (fs example_world)) by exact example_fs_wf.
  assert (H2 : invoked example_world = []) by reflexivity.
  assert (H3 : requests example_world = []) by reflexivity.
  do 3 (split; [done|]).
  destruct (run_fifo_nsteps ["node_modules"] index_js example_backend 20
              (start "/w" example_world)) as (n & Hn & _).
  exists n. split; [exact Hn|].
  exact (run_length_bounded _ _ _ _ _ _ H1 H2 H3 Hn).
Defined.

Lemma weight_zero (l : list task) : weight l = 0 → l = [].
Proof.
  destruct l as [|[[dir|filePath file]|prompt k] l]; [done|..];
    unfold weight; cbn; lia.
Qed.

(** X15. The walk comes to an end: over a tree with distinct entry
    names the run that takes the oldest task first, with any backend,
    has no task left and no uncaught exception once it was given three
    turns for each directory entry and one more. *)
Theorem fifo_run_ends ignorePatterns v backend cwd w fuel :
  wf_listings (fs w) → invoked w = [] → requests w = [] →
  3 * length (dir_entries (fs w)) + 1 ≤ fuel →
  pending (run_fifo ignorePatterns v backend fuel (start cwd w)) = []
  ∧ crashed (run_fifo ignorePatterns v backend fuel (start cwd w)) = None.
Proof.
  intros Hwf Hinv Hreq Hfuel.
  destruct (run_fifo_nsteps ignorePatterns v backend fuel (start cwd w))
    as (n & Hn & Hstop).
  pose proof (rtc_nsteps_2 _ _ _ Hn) as Hrun.
  destruct (safe_run _ _ _ _ _ Hrun) as [Hc _].
  split; [|done].
  destruct Hstop as [->|[Hcrash|Hend]]; [|done..].
  pose proof (turn_budget _ _ _ _ _ _ Hn) as Hbudget.
  destruct (distinct_run ignorePatterns v cwd w _ Hwf Hinv Hreq Hrun)
    as [_ (_ & _ & _ & Hnodup & _)].
  pose proof (visited_are_entries _ _ _ _ _ Hinv Hrun) as Hvis.
  assert (length (visited (registered
                             (run_fifo ignorePatterns v backend fuel
                                       (start cwd w))))
          ≤ length (dir_entries (fs w))).
  { apply submseteq_length, NoDup_submseteq; [done|].
    intros p. apply (proj1 (Forall_forall _ _) Hvis). }
  apply weight_zero. lia.
Qed.

Lemma fifo_run_ends_witness :
  wf_listings (fs example_world)
  ∧ invoked example_world = [] ∧ requests example_world = []
  ∧ 3 * length (dir_entries (fs example_world)) + 1 ≤ 22
  ∧ pending (run_fifo ["node_modules"] part_000 example_backend 22
                      (start "/w" example_world)) = []
  ∧ crashed (run_fifo ["node_modules"] part_000 example_backend 22
                      (start "/w" example_world)) = None.
Proof.
  assert (H1 : wf_listings (fs example_world)) by exact example_fs_wf.
  assert (H2 : invoked example_world = []) by reflexivity.
  assert (H3 : requests example_world = []) by reflexivity.
  assert (H4 : 3 * length (dir_entries (fs example_world)) + 1 ≤ 22)
    by (vm_compute; lia).
  do 4 (split; [done|]).
  exact (fifo_run_ends _ _ _ _ _ _ H1 H2 H3 H4).
Defined.

(** ** What the walk reaches *)

Section Reach.
Variable ignorePatterns : list string.
Variable v : variant.

(** The callbacks a turn registers and the annotator calls it makes. *)
Lemma turn_exact t reply w h w' cs :
  task_ok ignorePatterns t →
  exec (task_prog ignorePatterns v t reply) w = (h, w', cs) →
  match t with
  | Callback (ReaddirCb dir) =>
      cs = match fs w !! dir with
           | Some (Dir (Some files)) => stat_calls ignorePatterns dir files
           | _ => []
           end
      ∧ invoked w' = invoked w
  | Callback (StatCb filePath file) =>
      cs = match fs w !! filePath with
           | Some (Dir _) => [ReaddirCb filePath]
           | _ => []
           end
      ∧ invoked w'
        = match fs w !! filePath with
          | Some (File _ _ _) =>
              if endsWith file ".js" || endsWith file ".ts"
              then invoked w ++ [(filePath, file)]
              else invoked w
          | _ => invoked w
          end
  | Continuation _ _ => cs = [] ∧ invoked w' = invoked w
  end.
Proof.
  intros Hok Hexec. destruct t as [[dir|filePath file]|prompt k].
  - rewrite exec_readdir_cb in Hexec.
    by destruct (fs w !! dir) as [[[files|]|content r wr]|];
      injection Hexec as <- <- <-.
  - rewrite exec_stat_cb in Hexec.
    destruct (fs w !! filePath) as [[l|content r wr]|];
      [by injection Hexec as <- <- <-| |by injection Hexec as <- <- <-].
    destruct (endsWith file ".js" || endsWith file ".ts");
      [|by injection Hexec as <- <- <-].
    destruct (exec_addDocumentation v filePath (add_invoked filePath file w))
      as [(e & He & _)|(C & wr' & k & _ & He & _)];
      rewrite He in Hexec; by injection Hexec as <- <- <-.
  - destruct (Hok reply w) as (w'' & Hexec' & Hinv & _).
    cbn [task_prog] in Hexec. rewrite Hexec' in Hexec.
    by injection Hexec as <- <- <-.
Qed.

Lemma processed_mono f reg reg' calls calls' c :
  reg ⊆ reg' → calls ⊆ calls' →
  processed ignorePatterns f reg calls c →
  processed ignorePatterns f reg' calls' c.
Proof.
  intros Hreg Hcalls. destruct c as [dir|filePath file]; cbn.
  - intros H files file Hdir Hfile Hign. by eapply Hreg, H.
  - intros [Hd Hf]. split.
    + intros l Hl. by eapply Hreg, Hd.
    + intros C r wr HC Hsuf. by eapply Hcalls, Hf.
Qed.

Lemma same_kind_dir (i : option inode) l :
  same_kind i (Some (Dir l)) ↔ i = Some (Dir l).
Proof.
  destruct i as [[l'|C r wr]|]; cbn; [|done..]. split; congruence.
Qed.

Lemma same_kind_dir_l (j : option inode) l :
  same_kind (Some (Dir l)) j → j = Some (Dir l).
Proof. destruct j as [[l'|C r wr]|]; cbn; [|done..]. congruence. Qed.

Lemma same_kind_file_l (j : option inode) C r wr :
  same_kind (Some (File C r wr)) j → ∃ C', j = Some (File C' r wr).
Proof.
  destruct j as [[l'|C' r' wr']|]; cbn; [done| |done].
  intros [-> ->]. by exists C'.
Qed.

Lemma closed_run cwd w s :
  invoked w = [] →
  rtc (step ignorePatterns v) (start cwd w) s →
  closed ignorePatterns w s ∧ ReaddirCb cwd ∈ registered s.
Proof.
  intros Hinv. revert s. apply run_induction.
  { split; [|by left]. intros c Hc. left.
    change (registered (start cwd w)) with [ReaddirCb cwd] in Hc.
    apply list_elem_of_singleton in Hc as ->. by left. }
  intros s i t reply Hrun [Hclosed Hcwd] _ Ht.
  destruct (safe_run _ _ _ _ _ Hrun) as [_ Hok].
  pose proof (proj1 (Forall_forall _ _) Hok _
                (list_elem_of_lookup_2 _ _ _ Ht)) as Htok.
  destruct (ledger_run ignorePatterns v cwd w Hinv s Hrun) as (HK & _).
  destruct (exec (task_prog ignorePatterns v t reply) (the_world s))
    as [[h w'] cs] eqn:Hexec.
  pose proof (turn_exact _ _ _ _ _ _ Htok Hexec) as Hturn.
  assert (Hcalls : invoked (the_world s) ⊆ invoked w').
  { destruct t as [[dir|filePath file]|prompt k].
    - destruct Hturn as [_ ->]. done.
    - destruct Hturn as [_ ->].
      destruct (fs (the_world s) !! filePath) as [[l|content r wr]|]; [done| |done].
      destruct (endsWith file ".js" || endsWith file ".ts"); [|done].
      intros x Hx. apply elem_of_app. by left.
    - destruct Hturn as [_ ->]. done. }
  assert (Hreg : registered s ⊆ registered s ++ cs).
  { intros x Hx. apply elem_of_app. by left. }
  split; [|rewrite settle_registered; by apply Hreg].
  intros c. rewrite settle_registered, settle_world, settle_pending.
  intros [Hc|Hc]%elem_of_app.
  2: { left. apply elem_of_app. right. apply elem_of_app. left.
       by apply list_elem_of_fmap_2. }
  destruct (Hclosed c Hc) as [Hpend|Hdone].
  2: { right. by eapply processed_mono. }
  rewrite (delete_Permutation _ _ _ Ht) in Hpend.
  apply elem_of_cons in Hpend as [<-|Hpend].
  2: { left. apply elem_of_app. by left. }
  right. destruct c as [dir|filePath file]; cbn.
  - destruct Hturn as [-> _]. intros files file Hdir Hfile Hign.
    specialize (HK dir). rewrite Hdir in HK.
    rewrite (same_kind_dir_l _ _ HK).
    apply elem_of_app. right. unfold stat_calls.
    apply (list_elem_of_fmap_2 (λ file, StatCb (path_join dir file) file)).
    by apply list_elem_of_filter.
  - destruct Hturn as [-> ->]. split.
    + intros l Hl. specialize (HK filePath). rewrite Hl in HK.
      rewrite (same_kind_dir_l _ _ HK). apply elem_of_app. right. by left.
    + intros C r wr HC Hsuf. specialize (HK filePath). rewrite HC in HK.
      destruct (same_kind_file_l _ _ _ _ HK) as [C' ->]. rewrite Hsuf.
      apply elem_of_app. right. by left.
Qed.

Lemma origin_run cwd w s :
  invoked w = [] →
  rtc (step ignorePatterns v) (start cwd w) s →
  (∀ c, Callback c ∈ pending s → c ∈ registered s)
  ∧ Forall (origin ignorePatterns (fs w) cwd) (registered s)
  ∧ Forall (λ call, reached ignorePatterns (fs w) cwd call.1 call.2
                    ∧ (∃ C r wr, fs w !! call.1 = Some (File C r wr))
                    ∧ endsWith call.2 ".js" || endsWith call.2 ".ts" = true)
           (invoked (the_world s)).
Proof.
  intros Hinv. revert s. apply run_induction.
  { split; [|split].
    - intros c Hc. apply list_elem_of_singleton in Hc. injection Hc as ->.
      by left.
    - constructor; [by left|constructor].
    - change (the_world (start cwd w)) with w. rewrite Hinv. constructor. }
  intros s i t reply Hrun (Hpend & Hreg & Hcalls) _ Ht.
  destruct (safe_run _ _ _ _ _ Hrun) as [_ Hok].
  pose proof (proj1 (Forall_forall _ _) Hok _
                (list_elem_of_lookup_2 _ _ _ Ht)) as Htok.
  destruct (ledger_run ignorePatterns v cwd w Hinv s Hrun) as (HK & _).
  destruct (exec (task_prog ignorePatterns v t reply) (the_world s))
    as [[h w'] cs] eqn:Hexec.
  pose proof (turn_exact _ _ _ _ _ _ Htok Hexec) as Hturn.
  rewrite settle_registered, settle_world, settle_pending.
  split; [|rewrite Forall_app; split; [split; [done|]|]].
  - intros c [Hc|[Hc|Hc]%elem_of_app]%elem_of_app; apply elem_of_app.
    + left. apply Hpend. rewrite (delete_Permutation _ _ _ Ht). by right.
    + right. apply list_elem_of_fmap in Hc as (c' & [= ->] & Hc'). done.
    + by destruct h; [apply elem_of_nil in Hc..|
                      apply list_elem_of_singleton in Hc].
  - destruct t as [[dir|filePath file]|prompt k].
    + destruct Hturn as [-> _].
      destruct (fs (the_world s) !! dir) as [[[files|]|content r wr]|] eqn:Hdir;
        try constructor.
      specialize (HK dir). rewrite Hdir in HK. apply same_kind_dir in HK.
      pose proof (proj1 (Forall_forall _ _) Hreg _
                    (Hpend _ (list_elem_of_lookup_2 _ _ _ Ht))) as Horigin.
      unfold stat_calls. apply Forall_fmap, Forall_forall.
      intros file [Hign Hfile]%list_elem_of_filter. cbn.
      destruct Horigin as [->|(name & l & Hreached & _)].
      * by eapply reached_top.
      * by eapply reached_below.
    + destruct Hturn as [-> _].
      destruct (fs (the_world s) !! filePath) as [[l|content r wr]|] eqn:Hlook;
        try constructor; [|constructor].
      specialize (HK filePath). rewrite Hlook in HK. apply same_kind_dir in HK.
      right. exists file, l. split; [|done].
      exact (proj1 (Forall_forall _ _) Hreg _
               (Hpend _ (list_elem_of_lookup_2 _ _ _ Ht))).
    + destruct Hturn as [-> _]. constructor.
  - destruct t as [[dir|filePath file]|prompt k].
    + by destruct Hturn as [_ ->].
    + destruct Hturn as [_ ->].
      destruct (fs (the_world s) !! filePath) as [[l|content r wr]|] eqn:Hlook;
        [done| |done].
      destruct (endsWith file ".js" || endsWith file ".ts") eqn:Hsuf; [|done].
      apply Forall_app. split; [done|]. constructor; [|constructor]. cbn.
      split; [|split; [|done]].
      * exact (proj1 (Forall_forall _ _) Hreg _
                 (Hpend _ (list_elem_of_lookup_2 _ _ _ Ht))).
      * specialize (HK filePath). rewrite Hlook in HK.
        destruct (fs w !! filePath) as [[l|C r' wr']|]; try done.
        by exists C, r', wr'.
    + by destruct Hturn as [_ ->].
Qed.

Lemma closed_reached cwd w s :
  invoked w = [] →
  rtc (step ignorePatterns v) (start cwd w) s →
  pending s = [] →
  ∀ filePath file,
    reached ignorePatterns (fs w) cwd filePath file →
    StatCb filePath file ∈ registered s
    ∧ processed ignorePatterns (fs w) (registered s) (invoked (the_world s))
                (StatCb filePath file).
Proof.
  intros Hinv Hrun Hend.
  destruct (closed_run cwd w s Hinv Hrun) as [Hclosed Hcwd].
  assert (Hdone : ∀ c, c ∈ registered s →
            processed ignorePatterns (fs w) (registered s)
                      (invoked (the_world s)) c).
  { intros c Hc. destruct (Hclosed c Hc) as [Hp|Hp]; [|done].
    rewrite Hend in Hp. by apply elem_of_nil in Hp. }
  assert (Hstat : ∀ filePath file,
            reached ignorePatterns (fs w) cwd filePath file →
            StatCb filePath file ∈ registered s).
  { intros filePath file Hreached.
    induction Hreached as [files file Hdir Hfile Hign
                          |dir name files file Hreached IH Hdir Hfile Hign].
    - exact (Hdone _ Hcwd files file Hdir Hfile Hign).
    - destruct (Hdone _ IH) as [Hlist _].
      exact (Hdone _ (Hlist _ Hdir) files file Hdir Hfile Hign). }
  intros filePath file Hreached.
  split; [by apply Hstat|]. exact (Hdone _ (Hstat _ _ Hreached)).
Qed.

End Reach.

(** X11. The walk leaves nothing out: when a run from a world without
    earlier annotator calls has no task left, every directory entry
    that is to be reached from the working directory was given to
    [fs.stat], every reached directory was listed, and the annotator was
    called on every reached file whose name ends in [.js] or [.ts],
    whatever the order of the callbacks and the replies. *)
Theorem finished_walk_is_complete ignorePatterns v cwd w s :
  invoked w = [] →
  rtc (step ignorePatterns v) (start cwd w) s →
  pending s = [] →
  ∀ filePath file,
    reached ignorePatterns (fs w) cwd filePath file →
    StatCb filePath file ∈ registered s
    ∧ (∀ l, fs w !! filePath = Some (Dir l) →
            ReaddirCb filePath ∈ registered s)
    ∧ (∀ C r wr, fs w !! filePath = Some (File C r wr) →
                 endsWith file ".js" || endsWith file ".ts" = true →
                 (filePath, file) ∈ invoked (the_world s)).
Proof.
  intros Hinv Hrun Hend filePath file Hreached.
  destruct (closed_reached ignorePatterns v cwd w s Hinv Hrun Hend
              filePath file Hreached) as [Hstat [Hdir Hfile]].
  done.
Qed.

(** X12. The walk goes nowhere else: in every state of a run from a
    world without earlier annotator calls, every path given to
    [fs.stat] is an entry to be reached from the working directory,
    every directory listed is the working directory or a reached
    directory, and every annotator call is for a reached entry that was a
    file when the run started and has a name ending in [.js] or [.ts]. *)
Theorem walk_stays_within_reach ignorePatterns v cwd w s :
  invoked w = [] →
  rtc (step ignorePatterns v) (start cwd w) s →
  (∀ filePath file,
     StatCb filePath file ∈ registered s →
     reached ignorePatterns (fs w) cwd filePath file)
  ∧ (∀ dir, ReaddirCb dir ∈ registered s →
            dir = cwd ∨ ∃ name l, reached ignorePatterns (fs w) cwd dir name
                                  ∧ fs w !! dir = Some (Dir l))
  ∧ (∀ filePath file,
       (filePath, file) ∈ invoked (the_world s) →
       reached ignorePatterns (fs w) cwd filePath file
       ∧ (∃ C r wr, fs w !! filePath = Some (File C r wr))
       ∧ endsWith file ".js" || endsWith file ".ts" = true).
Proof.
  intros Hinv Hrun.
  destruct (origin_run ignorePatterns v cwd w s Hinv Hrun)
    as (_ & Hreg & Hcalls).
  split; [|split].
  - intros filePath file Hin.
    exact (proj1 (Forall_forall _ _) Hreg _ Hin).
  - intros dir Hin. exact (proj1 (Forall_forall _ _) Hreg _ Hin).
  - intros filePath file Hin.
    exact (proj1 (Forall_forall _ _) Hcalls _ Hin).
Qed.

Lemma finished_walk_is_complete_witness :
  invoked example_world = []
  ∧ rtc (step ["node_modules"] index_js) (start "/w" example_world)
        (example_run index_js)
  ∧ pending (example_run index_js) = []
  ∧ reached ["node_modules"] (fs example_world) "/w" "/w/sub/c.js" "c.js"
  ∧ ("/w/sub/c.js", "c.js") ∈ invoked (the_world (example_run index_js)).
Proof.
  assert (H1 : invoked example_world = []) by reflexivity.
  assert (H2 : rtc (step ["node_modules"] index_js) (start "/w" example_world)
                   (example_run index_js)) by apply run_fifo_reachable.
  assert (H3 : pending (example_run index_js) = []) by (by vm_compute).
  assert (H4 : reached ["node_modules"] (fs example_world) "/w"
                       "/w/sub/c.js" "c.js").
  { change "/w/sub/c.js" with (path_join "/w/sub" "c.js").
    apply reached_below with "sub" ["c.js"]; [|done|by left|done].
    change "/w/sub" with (path_join "/w" "sub").
    apply reached_top with ["a.js"; "b.ts"; "notes.txt"; "sub"; "node_modules"];
      [done|by do 3 right; left|done]. }
  do 4 (split; [done|]).
  destruct (finished_walk_is_complete _ _ _ _ _ H1 H2 H3 _ _ H4)
    as (_ & _ & Hfile).
  exact (Hfile "c()" false true eq_refl eq_refl).
Defined.

Lemma walk_stays_within_reach_witness :
  invoked example_world = []
  ∧ rtc (step ["node_modules"] part_000) (start "/w" example_world)
        (example_run part_000)
  ∧ ("/w/a.js", "a.js") ∈ invoked (the_world (example_run part_000))
  ∧ reached ["node_modules"] (fs example_world) "/w" "/w/a.js" "a.js".
Proof.
  assert (H1 : invoked example_world = []) by reflexivity.
  assert (H2 : rtc (step ["node_modules"] part_000) (start "/w" example_world)
                   (example_run part_000)) by apply run_fifo_reachable.
  assert (H3 : ("/w/a.js", "a.js")
               ∈ invoked (the_world (example_run part_000)))
    by (vm_compute; left).
  do 3 (split; [done|]).
  destruct (walk_stays_within_reach _ _ _ _ _ H1 H2) as (_ & _ & Hcalls).
  exact (proj1 (Hcalls _ _ H3)).
Defined.

(** ** What the files hold *)





(** ** Runs that end agree *)







